(** * DailyCloudWatchLogArchiver: a shallow embedding of [src/index.ts]

    The construct's constructor is embedded as a computation over the
    children of the construct being built.  The two digests it takes
    ([crypto.createHash('shake256', { outputLength: 4 })]) are computed by
    an executable SHAKE256, so that every definition below runs on concrete
    input. *)

From Stdlib Require Import List String Ascii ZArith Lia Bool Arith.
From Stdlib Require Import DecimalString DecimalNat Permutation.
Import ListNotations.
Open Scope string_scope.

Set Implicit Arguments.

(** ** SHAKE256 ([crypto.createHash('shake256', ...)]) *)

Module Keccak.

Open Scope Z_scope.

Definition mask64 : Z := 0xFFFFFFFFFFFFFFFF.

Definition rotl64 (x n : Z) : Z :=
  Z.lor (Z.land (Z.shiftl x n) mask64) (Z.shiftr x (64 - n)).

(** The state is 25 lanes of 64 bits; lane (x, y) sits at [x + 5 * y]. *)
Definition lane (st : list Z) (x y : nat) : Z :=
  nth ((x mod 5) + 5 * (y mod 5)) st 0.

Definition tabulate (f : nat -> nat -> Z) : list Z :=
  map (fun i => f (i mod 5)%nat (i / 5)%nat) (seq 0 25).

Definition rotc : list Z :=
  [  0;  1; 62; 28; 27;
    36; 44;  6; 55; 20;
     3; 10; 43; 25; 39;
    41; 45; 15; 21;  8;
    18;  2; 61; 56; 14 ].

Definition RC : list Z :=
  [ 0x0000000000000001; 0x0000000000008082; 0x800000000000808A;
    0x8000000080008000; 0x000000000000808B; 0x0000000080000001;
    0x8000000080008081; 0x8000000000008009; 0x000000000000008A;
    0x0000000000000088; 0x0000000080008009; 0x000000008000000A;
    0x000000008000808B; 0x800000000000008B; 0x8000000000008089;
    0x8000000000008003; 0x8000000000008002; 0x8000000000000080;
    0x000000000000800A; 0x800000008000000A; 0x8000000080008081;
    0x8000000000008080; 0x0000000080000001; 0x8000000080008008 ].

Definition theta (st : list Z) : list Z :=
  let C x := Z.lxor (lane st x 0) (Z.lxor (lane st x 1) (Z.lxor (lane st x 2)
               (Z.lxor (lane st x 3) (lane st x 4)))) in
  let D x := Z.lxor (C (x + 4)%nat) (rotl64 (C (x + 1)%nat) 1) in
  tabulate (fun x y => Z.lxor (lane st x y) (D x)).

Definition rho_pi (st : list Z) : list Z :=
  tabulate (fun x y =>
    let x0 := ((x + 3 * y) mod 5)%nat in
    rotl64 (lane st x0 x) (lane rotc x0 x)).

Definition chi (st : list Z) : list Z :=
  tabulate (fun x y =>
    Z.lxor (lane st x y)
           (Z.land (Z.lxor (lane st (x + 1) y) mask64) (lane st (x + 2) y))).

Definition iota (rc : Z) (st : list Z) : list Z :=
  match st with
  | [] => []
  | l :: rest => Z.lxor l rc :: rest
  end.

Definition round (st : list Z) (rc : Z) : list Z :=
  iota rc (chi (rho_pi (theta st))).

Definition keccak_f (st : list Z) : list Z := fold_left round RC st.

(** SHAKE256: rate 136 bytes, domain suffix 0x1F, pad10*1. *)
Definition rate : nat := 136.

Definition pad (len : nat) : list Z :=
  let q := (rate - len mod rate)%nat in
  match q with
  | 1%nat => [0x9F]
  | _ => 0x1F :: (repeat 0 (q - 2) ++ [0x80])%list
  end.

Fixpoint le_lane (bytes : list Z) : Z :=
  match bytes with
  | [] => 0
  | b :: rest => Z.lor b (Z.shiftl (le_lane rest) 8)
  end.

Fixpoint lanes_of (n : nat) (bytes : list Z) : list Z :=
  match n with
  | O => []
  | S n' => le_lane (firstn 8 bytes) :: lanes_of n' (skipn 8 bytes)
  end.

Definition xor_block (st : list Z) (block : list Z) : list Z :=
  map (fun p => Z.lxor (fst p) (snd p)) (combine st (lanes_of 25 block)).

Fixpoint absorb (fuel : nat) (st : list Z) (bytes : list Z) : list Z :=
  match fuel, bytes with
  | S fuel', _ :: _ =>
      absorb fuel' (keccak_f (xor_block st (firstn rate bytes))) (skipn rate bytes)
  | _, _ => st
  end.

Definition bytes_of_string (s : string) : list Z :=
  map (fun c => Z.of_N (N_of_ascii c)) (list_ascii_of_string s).

(** The first [n <= 8] bytes squeezed out of the state. *)
Definition squeeze (n : nat) (st : list Z) : list Z :=
  map (fun i => Z.land (Z.shiftr (nth 0 st 0) (8 * Z.of_nat i)) 0xFF) (seq 0 n).

Definition shake256 (outputLength : nat) (data : string) : list Z :=
  let msg := bytes_of_string data in
  let padded := (msg ++ pad (List.length msg))%list in
  squeeze outputLength (absorb (List.length padded) (repeat 0 25) padded).

Definition hex_digit (d : Z) : ascii :=
  ascii_of_N (Z.to_N (if d <? 10 then 48 + d else 87 + d)).

Fixpoint hex (bytes : list Z) : string :=
  match bytes with
  | [] => EmptyString
  | b :: rest =>
      String (hex_digit (Z.shiftr b 4)) (String (hex_digit (Z.land b 15)) (hex rest))
  end.

End Keccak.

(** [crypto.createHash('shake256', { outputLength: 4 }).update(s).digest('hex')] *)
Definition shake256_hex4 (s : string) : string :=
  Keccak.hex (Keccak.shake256 4 s).


(** ** Strings of the JavaScript runtime *)

(** The key of an array index, as [Object.entries] yields it: the index in
    decimal. *)
Definition decimal (n : nat) : string := NilEmpty.string_of_uint (Nat.to_uint n).

(** [Object.entries(xs)] on a dense array: the pairs [(String(i), xs[i])] in
    ascending order of [i]. *)
Definition Object_entries {A : Type} (xs : list A) : list (string * A) :=
  combine (map decimal (seq 0 (List.length xs))) xs.

(** [s] without its prefix [p]. *)
Fixpoint strip_prefix (p s : string) : option string :=
  match p, s with
  | EmptyString, _ => Some s
  | String a p', String b s' => if Ascii.eqb a b then strip_prefix p' s' else None
  | String _ _, EmptyString => None
  end.

Definition dquote : ascii := "034"%char.
Definition backslash : ascii := "092"%char.

(** [JSON.stringify] of a string (QuoteJSONString), on the UTF-8 bytes of a
    well-formed string: the quote, the backslash and the control characters
    are escaped, every other byte is copied. *)
Definition JSON_escape (c : ascii) : string :=
  let n := nat_of_ascii c in
  if (n =? 8)%nat then "\b"
  else if (n =? 9)%nat then "\t"
  else if (n =? 10)%nat then "\n"
  else if (n =? 12)%nat then "\f"
  else if (n =? 13)%nat then "\r"
  else if (n =? 34)%nat then String backslash (String dquote "")
  else if (n =? 92)%nat then "\\"
  else if (n <? 32)%nat then "\u00" ++ Keccak.hex [Z.of_nat n]
  else String c "".

Fixpoint JSON_escape_all (s : string) : string :=
  match s with
  | EmptyString => ""
  | String c rest => JSON_escape c ++ JSON_escape_all rest
  end.

Definition JSON_quote (s : string) : string :=
  String dquote (JSON_escape_all s ++ String dquote "").

(** Reading a JSON string back ([JSON.parse]): the characters up to the
    closing quote, with the escapes undone.  A [\u] escape above U+007F is
    not decoded. *)
Definition hex_value (c : ascii) : option nat :=
  let n := nat_of_ascii c in
  if ((48 <=? n) && (n <=? 57))%nat then Some (n - 48)
  else if ((97 <=? n) && (n <=? 102))%nat then Some (n - 87)
  else if ((65 <=? n) && (n <=? 70))%nat then Some (n - 55)
  else None.

Definition hex4_value (a b c d : ascii) : option nat :=
  match hex_value a, hex_value b, hex_value c, hex_value d with
  | Some x, Some y, Some z, Some w => Some (((x * 16 + y) * 16 + z) * 16 + w)
  | _, _, _, _ => None
  end.

Definition prepend (c : ascii) (r : option (string * string)) : option (string * string) :=
  match r with
  | Some (s, rest) => Some (String c s, rest)
  | None => None
  end.

Fixpoint JSON_unescape (s : string) : option (string * string) :=
  match s with
  | EmptyString => None
  | String c rest =>
      if Ascii.eqb c dquote then Some (EmptyString, rest)
      else if Ascii.eqb c backslash then
        match rest with
        | String e rest1 =>
            if Ascii.eqb e "b" then prepend "008" (JSON_unescape rest1)
            else if Ascii.eqb e "t" then prepend "009" (JSON_unescape rest1)
            else if Ascii.eqb e "n" then prepend "010" (JSON_unescape rest1)
            else if Ascii.eqb e "f" then prepend "012" (JSON_unescape rest1)
            else if Ascii.eqb e "r" then prepend "013" (JSON_unescape rest1)
            else if Ascii.eqb e "/" then prepend "/" (JSON_unescape rest1)
            else if Ascii.eqb e dquote then prepend dquote (JSON_unescape rest1)
            else if Ascii.eqb e backslash then prepend backslash (JSON_unescape rest1)
            else if Ascii.eqb e "u" then
              match rest1 with
              | String h1 (String h2 (String h3 (String h4 rest2))) =>
                  match hex4_value h1 h2 h3 h4 with
                  | Some n =>
                      if (n <? 128)%nat
                      then prepend (ascii_of_nat n) (JSON_unescape rest2)
                      else None
                  | None => None
                  end
              | _ => None
              end
            else None
        | EmptyString => None
        end
      else if (nat_of_ascii c <? 32)%nat then None
      else prepend c (JSON_unescape rest)
  end.

(** A quoted string at the head of [s], and what follows it. *)
Definition JSON_string (s : string) : option (string * string) :=
  match s with
  | String c rest => if Ascii.eqb c dquote then JSON_unescape rest else None
  | EmptyString => None
  end.

(** ** Props (index.ts, lines 10 to 24) *)

Record ScheduleTargetProperty := {
  logGroupName : string;
  destinationPrefix : string
}.

Record ScheduleProperty := {
  name : string;
  description : string;
  target : ScheduleTargetProperty
}.

Record DailyCloudWatchLogArchiverProps := {
  schedules : list ScheduleProperty;
  targetBucket : option string  (* [None] is [undefined] *)
}.

(** [JSON.stringify({ logGroupName: ..., destinationPrefix: ... })] *)
Definition JSON_stringify (o : ScheduleTargetProperty) : string :=
  "{" ++ JSON_quote "logGroupName" ++ ":" ++ JSON_quote (logGroupName o) ++
  "," ++ JSON_quote "destinationPrefix" ++ ":" ++ JSON_quote (destinationPrefix o) ++ "}".

(** Reading the payload back: an object of the two string members, in the
    order [JSON.stringify] writes them. *)
Definition JSON_parse (s : string) : option ScheduleTargetProperty :=
  match strip_prefix "{" s with
  | None => None
  | Some s1 =>
  match JSON_string s1 with
  | None => None
  | Some (k1, s2) =>
  match strip_prefix ":" s2 with
  | None => None
  | Some s3 =>
  match JSON_string s3 with
  | None => None
  | Some (v1, s4) =>
  match strip_prefix "," s4 with
  | None => None
  | Some s5 =>
  match JSON_string s5 with
  | None => None
  | Some (k2, s6) =>
  match strip_prefix ":" s6 with
  | None => None
  | Some s7 =>
  match JSON_string s7 with
  | None => None
  | Some (v2, s8) =>
      if String.eqb k1 "logGroupName" && String.eqb k2 "destinationPrefix"
         && String.eqb s8 "}"
      then Some {| logGroupName := v1; destinationPrefix := v2 |}
      else None
  end end end end end end end end.

(** ** The resources the constructor declares *)

Inductive Principal := ServicePrincipal (service : string).

Inductive Effect := ALLOW | DENY.

Record PolicyStatement := {
  effect : Effect;
  principals : list Principal;
  actions : list string;
  resources : list string;
  conditions : list (string * list (string * string))
}.

Record RoleProps := {
  roleName : option string;
  roleDescription : option string;
  assumedBy : Principal;
  managedPolicies : list string;
  inlinePolicies : list (string * list PolicyStatement)
}.

Record LogArchiverFunctionProps := {
  functionName : string;
  functionDescription : string;
  environment : list (string * string);
  role : string  (* the id of the role construct *)
}.

Record RetryPolicy := {
  maximumEventAgeInSeconds : Z;
  maximumRetryAttempts : Z
}.

Record ScheduleTarget := {
  arn : string;
  roleArn : string;
  input : string;
  retryPolicy : RetryPolicy
}.

Record CfnScheduleProps := {
  scheduleName : string;
  scheduleDescription : string;
  state : string;
  groupName : string;
  flexibleTimeWindowMode : string;
  scheduleExpressionTimezone : string;
  scheduleExpression : string;
  scheduleTarget : ScheduleTarget
}.

(** What [Bucket.fromBucketName] hands back. *)
Record IBucket := {
  bucketName : string;
  bucketArn : string
}.

(** A child of the construct.  A [SecureLogBucket] carries the statements
    added to its resource policy by [addToResourcePolicy]; a role and a
    function carry the props they were made with; [role] in the props of the
    function is the id of the role construct. *)
Inductive Construct :=
| SecureLogBucket (name : string) (resourcePolicy : list PolicyStatement)
| ImportedBucket (bucket : IBucket)
| Role (props : RoleProps)
| LogArchiverFunction (props : LogArchiverFunctionProps)
| CfnScheduleGroup (name : string)
| CfnSchedule (props : CfnScheduleProps).

(** An attribute of a resource declared in this construct is known only at
    deployment; at synthesis it is a token, a string that stands for it. *)
Definition token (id attr : string) : string := "${Token[" ++ id ++ "." ++ attr ++ "]}".

(** ** The construct tree and the constructor's effects

    [new X(this, id, ...)] adds a child named [id] to [this]; the constructs
    library throws when [this] already has a child of that name.  A
    computation takes the children declared so far and gives the children
    after it together with its value or the error it threw: what was declared
    before a throw stays declared. *)

Inductive Error := JsError (message : string).

Definition Children := list (string * Construct).

Definition M (A : Type) : Type := Children -> Children * (Error + A).

Definition ret {A : Type} (a : A) : M A := fun t => (t, inr a).

Definition throw {A : Type} (e : Error) : M A := fun t => (t, inl e).

Definition bind {A B : Type} (m : M A) (k : A -> M B) : M B :=
  fun t =>
    match m t with
    | (t', inl e) => (t', inl e)
    | (t', inr a) => k a t'
    end.

Notation "x <- m ;; k" := (bind m (fun x => k))
  (at level 61, m at next level, right associativity).
Notation "m ;; k" := (bind m (fun _ => k))
  (at level 61, right associativity).

Definition hasChild (id : string) (t : Children) : bool :=
  existsb (String.eqb id) (map fst t).

(** The error of [Node.addChild] when the name is taken. *)
Definition duplicateName (this id : string) : Error :=
  JsError ("There is already a Construct with name '" ++ id ++
           "' in DailyCloudWatchLogArchiver" ++
           (if (String.length this =? 0)%nat then "" else " [" ++ this ++ "]")).

(** [Node.addChild], reached from the constructor of every construct. *)
Definition addChild (this id : string) (c : Construct) : M unit :=
  fun t =>
    if hasChild id t
    then (t, inl (duplicateName this id))
    else ((t ++ [(id, c)])%list, inr tt).

(** [bucket.addToResourcePolicy(statement)] on the bucket declared as [id]. *)
Definition addToResourcePolicy (id : string) (statement : PolicyStatement) : M unit :=
  fun t =>
    (map (fun child =>
            match child with
            | (id', SecureLogBucket n policy) =>
                if String.eqb id id'
                then (id', SecureLogBucket n (policy ++ [statement])%list)
                else child
            | _ => child
            end) t,
     inr tt).

(** [for (const x of xs) body(x)] *)
Fixpoint forOf {A : Type} (xs : list A) (body : A -> M unit) : M unit :=
  match xs with
  | [] => ret tt
  | x :: rest => body x ;; forOf rest body
  end.

Definition lookup (id : string) (t : Children) : option Construct :=
  match find (fun child => String.eqb id (fst child)) t with
  | Some child => Some (snd child)
  | None => None
  end.

(** ** The constructor (index.ts, lines 26 to 202) *)

(** What the constructor reads from its surroundings. *)
Record Context := {
  id : string;             (* the [id] handed to [super(scope, id)] *)
  scopeUniqueId : string;  (* [cdk.Names.uniqueId(scope)] *)
  thisUniqueId : string;   (* [cdk.Names.uniqueId(this)] *)
  region : string          (* [cdk.Stack.of(this).region] *)
}.

Module LocalBucket.
Record t := { bucketName : string; bucketARN : string }.
End LocalBucket.

(** The string hashed into [randomNameKey]. *)
Definition identity (ctx : Context) : string :=
  scopeUniqueId ctx ++ "-" ++ thisUniqueId ctx.

Definition randomNameKey (ctx : Context) : string := shake256_hex4 (identity ctx).

Definition idPrefix (schedule : ScheduleProperty) : string :=
  shake256_hex4 (name schedule).

(** The id of a job's schedule, [`Schedule${idPrefix}`]. *)
Definition scheduleId (schedule : ScheduleProperty) : string :=
  "Schedule" ++ idPrefix schedule.

Definition lambdaExecutionRole (randomNameKey : string) (localBucket : LocalBucket.t)
  : RoleProps :=
  {| roleName := Some ("daily-cw-log-archiver-lambda-exec-" ++ randomNameKey ++ "-role");
     roleDescription := Some "";
     assumedBy := ServicePrincipal "lambda.amazonaws.com";
     managedPolicies := ["service-role/AWSLambdaBasicExecutionRole"];
     inlinePolicies :=
       [ ("log-export-policy",
          [ {| effect := ALLOW;
               principals := [];
               actions := ["logs:CreateExportTask"];
               resources := ["*"];
               conditions := [] |} ]);
         ("put-bucket-policy",
          [ {| effect := ALLOW;
               principals := [];
               actions := ["s3:GetBucketAcl"; "s3:PutObject"];
               resources := [LocalBucket.bucketARN localBucket];
               conditions := [] |} ]) ] |}.

Definition lambdaFunction (randomNameKey : string) (localBucket : LocalBucket.t)
  : LogArchiverFunctionProps :=
  {| functionName := "daily-cw-log-archiver-" ++ randomNameKey ++ "-func";
     functionDescription := "A function to archive logs s3 bucket from CloudWatch Logs.";
     environment := [("BUCKET_NAME", LocalBucket.bucketName localBucket)];
     role := "LambdaExecutionRole" |}.

(** [lambdaFunction.functionArn] and [schedulerExecutionRole.roleArn] *)
Definition functionArn : string := token "LogArchiveFunction" "Arn".
Definition schedulerRoleArn : string := token "SchedulerExecutionRole" "Arn".

Definition schedulerExecutionRole : RoleProps :=
  {| roleName := None;
     roleDescription := None;
     assumedBy := ServicePrincipal "scheduler.amazonaws.com";
     managedPolicies := [];
     inlinePolicies :=
       [ ("lambda-invoke-policy",
          [ {| effect := ALLOW;
               principals := [];
               actions := ["lambda:InvokeFunction"];
               resources := [functionArn; functionArn ++ ":*"];
               conditions := [] |} ]) ] |}.

(** [scheduleGroup.name] *)
Definition scheduleGroup (randomNameKey : string) : string :=
  "log-archive-schedule-" ++ randomNameKey ++ "-group".

(** The props of the schedule declared for the entry [(index, schedule)]. *)
Definition schedule_props (randomNameKey : string) (index : string)
    (schedule : ScheduleProperty) : CfnScheduleProps :=
  {| scheduleName := name schedule;
     scheduleDescription := description schedule;
     state := "ENABLED";
     groupName := scheduleGroup randomNameKey;
     flexibleTimeWindowMode := "OFF";
     scheduleExpressionTimezone := "UTC";
     scheduleExpression := "cron(" ++ index ++ " 13 * * ? *)";
     scheduleTarget :=
       {| arn := functionArn;
          roleArn := schedulerRoleArn;
          input := JSON_stringify
                     {| logGroupName := logGroupName (target schedule);
                        destinationPrefix := destinationPrefix (target schedule) |};
          retryPolicy := {| maximumEventAgeInSeconds := 60;
                            maximumRetryAttempts := 0 |} |} |}.

Section Constructor.

(** [Bucket.fromBucketName(this, 'existingBucket', name)] of aws-cdk-lib:
    it throws, before it declares anything, or declares the import and hands
    back the bucket's name and ARN. *)
Variable Bucket_fromBucketName : string -> Error + IBucket.

Variable ctx : Context.

(** Lines 54 to 88: the bucket the construct provisions itself. *)
Definition logArchiveBucket : M LocalBucket.t :=
  let bucketArn := token "LogArchiveBucket" "Arn" in
  addChild (id ctx) "LogArchiveBucket"
           (SecureLogBucket ("log-archive-" ++ randomNameKey ctx) []) ;;
  addToResourcePolicy "LogArchiveBucket"
    {| effect := ALLOW;
       principals := [ServicePrincipal ("logs." ++ region ctx ++ ".amazonaws.com")];
       actions := ["s3:GetBucketAcl"];
       resources := [bucketArn];
       conditions := [] |} ;;
  addToResourcePolicy "LogArchiveBucket"
    {| effect := ALLOW;
       principals := [ServicePrincipal ("logs." ++ region ctx ++ ".amazonaws.com")];
       actions := ["s3:PutObject"];
       resources := [bucketArn ++ "/*"];
       conditions := [("StringEquals", [("s3:x-amz-acl", "bucket-owner-full-control")])] |} ;;
  ret {| LocalBucket.bucketName := token "LogArchiveBucket" "Ref";
         LocalBucket.bucketARN := bucketArn |}.

(** Lines 90 to 92: the bucket the caller names. *)
Definition existingBucket (targetBucket : string) : M LocalBucket.t :=
  match Bucket_fromBucketName targetBucket with
  | inl e => throw e
  | inr b =>
      addChild (id ctx) "existingBucket" (ImportedBucket b) ;;
      ret {| LocalBucket.bucketName := bucketName b;
             LocalBucket.bucketARN := bucketArn b |}
  end.

(** Lines 47 to 94. *)
Definition localBucket (targetBucket : option string) : M LocalBucket.t :=
  match targetBucket with
  | None => logArchiveBucket
  | Some b =>
      if (String.length b =? 0)%nat then logArchiveBucket else existingBucket b
  end.

(** Lines 30 to 36. *)
Definition validate (props : DailyCloudWatchLogArchiverProps) : M unit :=
  if (List.length (schedules props) =? 0)%nat
  then throw (JsError "Schedule not set.")
  else if (60 <? List.length (schedules props))%nat
  then throw (JsError "Maximum number(60) of schedule.")
  else ret tt.

(** Lines 170 to 200. *)
Definition declareSchedules (schedules : list ScheduleProperty) : M unit :=
  forOf (Object_entries schedules) (fun entry =>
    let (index, schedule) := entry in
    addChild (id ctx) (scheduleId schedule)
             (CfnSchedule (schedule_props (randomNameKey ctx) index schedule))).

Definition DailyCloudWatchLogArchiver (props : DailyCloudWatchLogArchiverProps)
  : M unit :=
  validate props ;;
  bucket <- localBucket (targetBucket props) ;;
  addChild (id ctx) "LambdaExecutionRole"
           (Role (lambdaExecutionRole (randomNameKey ctx) bucket)) ;;
  addChild (id ctx) "LogArchiveFunction"
           (LogArchiverFunction (lambdaFunction (randomNameKey ctx) bucket)) ;;
  addChild (id ctx) "SchedulerExecutionRole" (Role schedulerExecutionRole) ;;
  addChild (id ctx) "ScheduleGroup"
           (CfnScheduleGroup (scheduleGroup (randomNameKey ctx))) ;;
  declareSchedules (schedules props).

(** [new DailyCloudWatchLogArchiver(scope, id, props)]: the constructor run
    on a construct that has no child yet.  ([super(scope, id)], which enters
    the construct itself in [scope], is the caller's side of the tree.) *)
Definition construct (props : DailyCloudWatchLogArchiverProps)
  : Children * (Error + unit) :=
  DailyCloudWatchLogArchiver props [].

End Constructor.

(** ** Reading a construct tree *)

Definition schedulesOf (t : Children) : list CfnScheduleProps :=
  flat_map (fun child => match snd child with
                         | CfnSchedule p => [p]
                         | _ => []
                         end) t.

(** The resource-policy statements attached to the buckets of a tree. *)
Definition resourcePoliciesOf (t : Children) : list PolicyStatement :=
  flat_map (fun child => match snd child with
                         | SecureLogBucket _ policy => policy
                         | _ => []
                         end) t.

Definition inlinePolicy (policyName : string) (r : RoleProps) : option (list PolicyStatement) :=
  match find (fun p => String.eqb policyName (fst p)) (inlinePolicies r) with
  | Some p => Some (snd p)
  | None => None
  end.

(** *** Cron expressions: the minute and hour fields of [cron(m h ...)] *)

Definition is_digit (c : ascii) : bool :=
  let n := nat_of_ascii c in ((48 <=? n) && (n <=? 57))%nat.

Fixpoint take_digits (s : string) : string * string :=
  match s with
  | String c rest =>
      if is_digit c
      then let (d, r) := take_digits rest in (String c d, r)
      else (EmptyString, s)
  | EmptyString => (EmptyString, EmptyString)
  end.

(** A non-empty run of digits followed by a space. *)
Definition cron_field (s : string) : option (nat * string) :=
  match take_digits s with
  | (String c d, String " " rest) =>
      match NilEmpty.uint_of_string (String c d) with
      | Some u => Some (Nat.of_uint u, rest)
      | None => None
      end
  | _ => None
  end.

Definition cron_minute_hour (expression : string) : option (nat * nat) :=
  match strip_prefix "cron(" expression with
  | Some s =>
      match cron_field s with
      | Some (minute, s') =>
          match cron_field s' with
          | Some (hour, _) => Some (minute, hour)
          | None => None
          end
      | None => None
      end
  | None => None
  end.

Definition cron_minute (expression : string) : option nat :=
  option_map fst (cron_minute_hour expression).

(** The expression of line 186 for index [i] reads back as minute [i] of
    hour 13. *)
Definition cron_ok (i : nat) : bool :=
  match cron_minute_hour ("cron(" ++ decimal i ++ " 13 * * ? *)") with
  | Some (m, h) => (m =? i)%nat && (h =? 13)%nat
  | None => false
  end.

(** *** Eight lowercase hexadecimal digits *)

Definition is_hex_digit (c : ascii) : bool :=
  let n := nat_of_ascii c in
  (((48 <=? n) && (n <=? 57)) || ((97 <=? n) && (n <=? 102)))%nat.

Fixpoint all_hex (s : string) : bool :=
  match s with
  | EmptyString => true
  | String c rest => is_hex_digit c && all_hex rest
  end.

Definition is_hex8 (s : string) : bool :=
  (String.length s =? 8)%nat && all_hex s.

(** *** What a run of the loop declares *)

(** The child the loop body declares for an entry. *)
Definition declaration (key : string) (entry : string * ScheduleProperty)
  : string * Construct :=
  (scheduleId (snd entry), CfnSchedule (schedule_props key (fst entry) (snd entry))).

Definition declarations (key : string) (schedules : list ScheduleProperty) : Children :=
  map (declaration key) (Object_entries schedules).

(** The loop, over the children to declare. *)
Definition declare (this : string) (ds : Children) : M unit :=
  forOf ds (fun d => addChild this (fst d) (snd d)).

(** The declarations that are added before the first one whose name is
    taken, given the names [seen] so far. *)
Fixpoint accepted (seen : list string) (ds : Children) : Children :=
  match ds with
  | [] => []
  | d :: rest =>
      if existsb (String.eqb (fst d)) seen then []
      else d :: accepted (seen ++ [fst d]) rest
  end.

(** The children declared between the bucket and the loop. *)
Definition fixedChildren (key : string) (bucket : LocalBucket.t) : Children :=
  [ ("LambdaExecutionRole", Role (lambdaExecutionRole key bucket));
    ("LogArchiveFunction", LogArchiverFunction (lambdaFunction key bucket));
    ("SchedulerExecutionRole", Role schedulerExecutionRole);
    ("ScheduleGroup", CfnScheduleGroup (scheduleGroup key)) ].

(** The bucket child of lines 54 to 88 and what [localBucket] holds after. *)
Definition managedBucket (ctx : Context) : string * Construct :=
  ("LogArchiveBucket",
   SecureLogBucket ("log-archive-" ++ randomNameKey ctx)
     [ {| effect := ALLOW;
          principals := [ServicePrincipal ("logs." ++ region ctx ++ ".amazonaws.com")];
          actions := ["s3:GetBucketAcl"];
          resources := [token "LogArchiveBucket" "Arn"];
          conditions := [] |};
       {| effect := ALLOW;
          principals := [ServicePrincipal ("logs." ++ region ctx ++ ".amazonaws.com")];
          actions := ["s3:PutObject"];
          resources := [token "LogArchiveBucket" "Arn" ++ "/*"];
          conditions := [("StringEquals", [("s3:x-amz-acl", "bucket-owner-full-control")])] |} ]).

Definition managedLocalBucket : LocalBucket.t :=
  {| LocalBucket.bucketName := token "LogArchiveBucket" "Ref";
     LocalBucket.bucketARN := token "LogArchiveBucket" "Arn" |}.

Definition importedLocalBucket (b : IBucket) : LocalBucket.t :=
  {| LocalBucket.bucketName := bucketName b;
     LocalBucket.bucketARN := bucketArn b |}.

(** The test of line 52. *)
Definition unset (targetBucket : option string) : bool :=
  match targetBucket with
  | None => true
  | Some b => (String.length b =? 0)%nat
  end.

(** The bucket is provisioned here, or the library finds the one named. *)
Definition resolves (fromBucketName : string -> Error + IBucket)
    (targetBucket : option string) : bool :=
  match targetBucket with
  | None => true
  | Some b =>
      (String.length b =? 0)%nat ||
      match fromBucketName b with inr _ => true | inl _ => false end
  end.

(** The children declared before the loop, when the bucket resolves. *)
Definition preamble (fromBucketName : string -> Error + IBucket) (ctx : Context)
    (targetBucket : option string) : option Children :=
  match targetBucket with
  | None =>
      Some (managedBucket ctx :: fixedChildren (randomNameKey ctx) managedLocalBucket)
  | Some b =>
      if (String.length b =? 0)%nat
      then Some (managedBucket ctx :: fixedChildren (randomNameKey ctx) managedLocalBucket)
      else match fromBucketName b with
           | inr bucket =>
               Some (("existingBucket", ImportedBucket bucket)
                       :: fixedChildren (randomNameKey ctx) (importedLocalBucket bucket))
           | inl _ => None
           end
  end.

(** *** The characters of a generated name *)

Fixpoint forall_chars (p : ascii -> bool) (s : string) : bool :=
  match s with
  | EmptyString => true
  | String c rest => p c && forall_chars p rest
  end.

(** A lowercase letter, a digit or a hyphen. *)
Definition is_name_char (c : ascii) : bool :=
  let n := nat_of_ascii c in
  (((97 <=? n) && (n <=? 122)) || ((48 <=? n) && (n <=? 57)) || (n =? 45))%nat.

(** A letter of either case, a digit or a hyphen. *)
Definition is_id_char (c : ascii) : bool :=
  let n := nat_of_ascii c in
  (((97 <=? n) && (n <=? 122)) || ((65 <=? n) && (n <=? 90))
   || ((48 <=? n) && (n <=? 57)) || (n =? 45))%nat.

(** The ids of the children declared before the loop, whichever the bucket. *)
Definition fixedIds : list string :=
  [ "LogArchiveBucket"; "existingBucket"; "LambdaExecutionRole";
    "LogArchiveFunction"; "SchedulerExecutionRole"; "ScheduleGroup" ].

(** ** Sample inputs *)

(** An instance of the library's [Bucket.fromBucketName] to run the
    constructor with: it applies the length rule of S3 bucket names (3 to 63
    characters) and forms the ARN from the name. *)
Definition sample_fromBucketName (bucketName : string) : Error + IBucket :=
  if ((String.length bucketName <? 3) || (63 <? String.length bucketName))%nat
  then inl (JsError ("Invalid S3 bucket name (value: " ++ bucketName ++ ")"))
  else inr {| bucketName := bucketName;
              bucketArn := "arn:${Token[AWS.Partition]}:s3:::" ++ bucketName |}.

Definition sample_ctx : Context :=
  {| id := "Archiver"; scopeUniqueId := "Stack"; thisUniqueId := "StackArchiver1234";
     region := "us-east-1" |}.

Definition job (n lg prefix : string) : ScheduleProperty :=
  {| name := n; description := "d";
     target := {| logGroupName := lg; destinationPrefix := prefix |} |}.

Definition job_app : ScheduleProperty := job "daily-app-logs" "/app/prod" "app/".
Definition job_web : ScheduleProperty := job "daily-web-logs" "/web/prod" "web/".

(** ** Digests *)

Lemma hex_digit_is_hex (d : Z) :
  (0 <= d < 16)%Z -> is_hex_digit (Keccak.hex_digit d) = true.
Proof.
  intros H.
  assert (E : In d [0; 1; 2; 3; 4; 5; 6; 7; 8; 9; 10; 11; 12; 13; 14; 15]%Z).
  { simpl. lia. }
  simpl in E.
  repeat (destruct E as [E | E]; [subst d; reflexivity |]).
  contradiction.
Qed.

Lemma hex_length (bytes : list Z) :
  String.length (Keccak.hex bytes) = 2 * List.length bytes.
Proof.
  induction bytes as [| b rest IH]; simpl; [reflexivity | rewrite IH; lia].
Qed.

Lemma hex_all_hex (bytes : list Z) :
  Forall (fun b => 0 <= b < 256)%Z bytes -> all_hex (Keccak.hex bytes) = true.
Proof.
  induction 1 as [| b rest Hb _ IH]; [reflexivity |].
  cbn [Keccak.hex all_hex].
  rewrite IH, !hex_digit_is_hex; [reflexivity | |].
  - change 15%Z with (Z.ones 4). rewrite Z.land_ones by lia.
    apply Z.mod_pos_bound. lia.
  - rewrite Z.shiftr_div_pow2 by lia. change (2 ^ 4)%Z with 16%Z.
    split; [apply Z.div_pos; lia | apply Z.div_lt_upper_bound; lia].
Qed.

Lemma squeeze_bytes (n : nat) (st : list Z) :
  List.length (Keccak.squeeze n st) = n /\
  Forall (fun b => 0 <= b < 256)%Z (Keccak.squeeze n st).
Proof.
  unfold Keccak.squeeze. split.
  - rewrite length_map, length_seq. reflexivity.
  - apply Forall_map, Forall_forall. intros i _.
    change 255%Z with (Z.ones 8). rewrite Z.land_ones by lia.
    apply Z.mod_pos_bound. lia.
Qed.

Lemma shake256_hex4_length (s : string) : String.length (shake256_hex4 s) = 8.
Proof.
  unfold shake256_hex4, Keccak.shake256.
  rewrite hex_length.
  now rewrite (proj1 (squeeze_bytes 4 _)).
Qed.

Lemma shake256_hex4_is_hex8 (s : string) : is_hex8 (shake256_hex4 s) = true.
Proof.
  unfold is_hex8. rewrite shake256_hex4_length, Nat.eqb_refl. cbn [andb].
  unfold shake256_hex4, Keccak.shake256.
  apply hex_all_hex. apply squeeze_bytes.
Qed.

(** Reference SHAKE256 digests (FIPS 202), of one block and of more. *)
Example shake256_hex4_vectors :
  shake256_hex4 "" = "46b9dd2b" /\
  shake256_hex4 "abc" = "48336660" /\
  shake256_hex4 "daily-app-logs" = "d2ce5d61" /\
  shake256_hex4 (string_of_list_ascii (repeat "a"%char 135)) = "55b991ec" /\
  shake256_hex4 (string_of_list_ascii (repeat "a"%char 136)) = "8fcc5a08" /\
  shake256_hex4 (string_of_list_ascii (repeat "a"%char 300)) = "542e4338".
Proof. vm_compute. repeat split. Qed.

Global Opaque shake256_hex4.
Arguments shake256_hex4 : simpl never.
Arguments randomNameKey : simpl never.
Arguments idPrefix : simpl never.

(** ** The monad and the loop *)

Lemma String_eqb_length (a b : string) :
  String.length a <> String.length b -> String.eqb a b = false.
Proof.
  intros H. apply String.eqb_neq. intros E. apply H. now rewrite E.
Qed.

Section Loop.

Variable this : string.

Lemma declare_cons (d : string * Construct) (rest : Children) (t : Children) :
  declare this (d :: rest) t
  = if hasChild (fst d) t
    then (t, inl (duplicateName this (fst d)))
    else declare this rest (t ++ [d])%list.
Proof.
  destruct d as [i c]. unfold declare. cbn [forOf fst snd].
  unfold bind at 1. unfold addChild at 1.
  now destruct (hasChild i t).
Qed.

Lemma declare_tree (ds : Children) :
  forall t, fst (declare this ds t) = (t ++ accepted (map fst t) ds)%list.
Proof.
  induction ds as [| d rest IH]; intros t.
  - cbn. now rewrite app_nil_r.
  - rewrite declare_cons. cbn [accepted]. unfold hasChild.
    destruct (existsb (String.eqb (fst d)) (map fst t)).
    + cbn. now rewrite app_nil_r.
    + rewrite IH, map_app, <- app_assoc. reflexivity.
Qed.

Lemma declare_ok (ds : Children) :
  forall t,
    NoDup (map fst ds) ->
    (forall d, In d ds -> hasChild (fst d) t = false) ->
    declare this ds t = ((t ++ ds)%list, inr tt).
Proof.
  induction ds as [| d rest IH]; intros t Hnd Hfresh.
  - cbn. now rewrite app_nil_r.
  - rewrite declare_cons, (Hfresh d (or_introl eq_refl)).
    inversion Hnd as [| x xs Hx Hxs]; subst.
    rewrite IH; [now rewrite <- app_assoc | assumption |].
    intros d' Hd'. unfold hasChild. rewrite map_app, existsb_app.
    fold (hasChild (fst d') t). rewrite (Hfresh d' (or_intror Hd')).
    cbn. rewrite orb_false_r. apply String.eqb_neq.
    intros E. apply Hx. rewrite <- E. now apply in_map.
Qed.

Lemma accepted_incl (ds : Children) :
  forall seen, incl (accepted seen ds) ds.
Proof.
  induction ds as [| d rest IH]; intros seen; cbn; [apply incl_refl |].
  destruct (existsb _ seen); [apply incl_nil_l |].
  apply incl_cons; [now left | apply incl_tl, IH].
Qed.

End Loop.

Lemma declareSchedules_declare (ctx : Context) (schedules : list ScheduleProperty) :
  declareSchedules ctx schedules
  = declare (id ctx) (declarations (randomNameKey ctx) schedules).
Proof.
  unfold declareSchedules, declare, declarations.
  induction (Object_entries schedules) as [| [index schedule] rest IH];
    [reflexivity |].
  cbn [forOf map]. now rewrite IH.
Qed.


(** ** The run of the constructor *)

Section Run.

Variable fromBucketName : string -> Error + IBucket.
Variable ctx : Context.

Lemma localBucket_unset (targetBucket : option string) :
  unset targetBucket = true ->
  localBucket fromBucketName ctx targetBucket []
  = ([managedBucket ctx], inr managedLocalBucket).
Proof.
  intros H. unfold localBucket.
  destruct targetBucket as [b |]; cbn [unset] in H; [rewrite H |]; reflexivity.
Qed.

Lemma localBucket_named (b : string) :
  unset (Some b) = false ->
  localBucket fromBucketName ctx (Some b) []
  = match fromBucketName b with
    | inl e => ([], inl e)
    | inr bucket => ([("existingBucket", ImportedBucket bucket)],
                     inr (importedLocalBucket bucket))
    end.
Proof.
  intros H. cbn [unset] in H. unfold localBucket, existingBucket. rewrite H.
  destruct (fromBucketName b); reflexivity.
Qed.

Variable props : DailyCloudWatchLogArchiverProps.

Hypothesis valid : 1 <= List.length (schedules props) <= 60.

Lemma validate_ok (t : Children) : validate props t = (t, inr tt).
Proof.
  unfold validate.
  destruct (Nat.eqb_spec (List.length (schedules props)) 0) as [E | _]; [lia |].
  destruct (Nat.ltb_spec 60 (List.length (schedules props))) as [E | _]; [lia |].
  reflexivity.
Qed.

Lemma construct_unset :
  unset (targetBucket props) = true ->
  construct fromBucketName ctx props
  = declare (id ctx) (declarations (randomNameKey ctx) (schedules props))
            (managedBucket ctx :: fixedChildren (randomNameKey ctx) managedLocalBucket).
Proof.
  intros H. unfold construct, DailyCloudWatchLogArchiver.
  unfold bind at 1. rewrite validate_ok.
  unfold bind at 1. rewrite (localBucket_unset _ H).
  rewrite declareSchedules_declare. reflexivity.
Qed.

Lemma construct_named (b : string) (bucket : IBucket) :
  targetBucket props = Some b ->
  unset (Some b) = false ->
  fromBucketName b = inr bucket ->
  construct fromBucketName ctx props
  = declare (id ctx) (declarations (randomNameKey ctx) (schedules props))
            (("existingBucket", ImportedBucket bucket)
               :: fixedChildren (randomNameKey ctx) (importedLocalBucket bucket)).
Proof.
  intros Hb H Hlib. unfold construct, DailyCloudWatchLogArchiver.
  unfold bind at 1. rewrite validate_ok.
  unfold bind at 1. rewrite Hb, (localBucket_named b H), Hlib.
  rewrite declareSchedules_declare. reflexivity.
Qed.

Lemma construct_unresolved (b : string) (e : Error) :
  targetBucket props = Some b ->
  unset (Some b) = false ->
  fromBucketName b = inl e ->
  construct fromBucketName ctx props = ([], inl e).
Proof.
  intros Hb H Hlib. unfold construct, DailyCloudWatchLogArchiver.
  unfold bind at 1. rewrite validate_ok.
  unfold bind at 1. rewrite Hb, (localBucket_named b H), Hlib.
  reflexivity.
Qed.

End Run.

(** ** Entries, declarations and cron expressions *)

Lemma entries_from_nth {A : Type} (xs : list A) :
  forall k i,
    nth_error (combine (map decimal (seq k (List.length xs))) xs) i
    = option_map (fun x => (decimal (k + i), x)) (nth_error xs i).
Proof.
  induction xs as [| x rest IH]; intros k i.
  - destruct i; reflexivity.
  - destruct i as [| i]; cbn.
    + now rewrite Nat.add_0_r.
    + rewrite IH. now rewrite Nat.add_succ_r.
Qed.

Lemma Object_entries_nth {A : Type} (xs : list A) (i : nat) :
  nth_error (Object_entries xs) i
  = option_map (fun x => (decimal i, x)) (nth_error xs i).
Proof. apply (entries_from_nth xs 0 i). Qed.

Lemma Object_entries_snd {A : Type} (xs : list A) :
  map snd (Object_entries xs) = xs.
Proof.
  unfold Object_entries. generalize 0.
  induction xs as [| x rest IH]; intros k; cbn; [reflexivity | now rewrite IH].
Qed.

Lemma Object_entries_length {A : Type} (xs : list A) :
  List.length (Object_entries xs) = List.length xs.
Proof. now rewrite <- (Object_entries_snd xs) at 2; rewrite length_map. Qed.

Lemma declarations_ids (key : string) (schedules : list ScheduleProperty) :
  map fst (declarations key schedules) = map scheduleId schedules.
Proof.
  unfold declarations. rewrite map_map. cbn [declaration fst].
  rewrite <- (Object_entries_snd schedules) at 2. now rewrite map_map.
Qed.

Lemma declarations_nth (key : string) (schedules : list ScheduleProperty) (i : nat) :
  nth_error (declarations key schedules) i
  = option_map (fun s => (scheduleId s, CfnSchedule (schedule_props key (decimal i) s)))
               (nth_error schedules i).
Proof.
  unfold declarations. rewrite nth_error_map, Object_entries_nth.
  now destruct (nth_error schedules i).
Qed.

Lemma schedulesOf_app (t1 t2 : Children) :
  schedulesOf (t1 ++ t2)%list = (schedulesOf t1 ++ schedulesOf t2)%list.
Proof. apply flat_map_app. Qed.

Lemma schedulesOf_declarations (key : string) (schedules : list ScheduleProperty) :
  schedulesOf (declarations key schedules)
  = map (fun e => schedule_props key (fst e) (snd e)) (Object_entries schedules).
Proof.
  unfold declarations.
  induction (Object_entries schedules) as [| e rest IH]; [reflexivity |].
  cbn [map schedulesOf flat_map declaration snd]. cbn [app].
  f_equal. exact IH.
Qed.

Lemma append_inj (p a b : string) : p ++ a = p ++ b -> a = b.
Proof.
  induction p as [| c p IH]; cbn; intros E; [exact E |].
  injection E as E. exact (IH E).
Qed.

Lemma scheduleId_inj (a b : ScheduleProperty) :
  scheduleId a = scheduleId b -> idPrefix a = idPrefix b.
Proof. unfold scheduleId. apply append_inj. Qed.

Lemma scheduleIds_NoDup (schedules : list ScheduleProperty) :
  NoDup (map idPrefix schedules) -> NoDup (map scheduleId schedules).
Proof.
  induction schedules as [| s rest IH]; cbn; intros H; [constructor |].
  inversion H as [| x xs Hx Hxs]; subst. constructor; [| now apply IH].
  rewrite in_map_iff in *. intros [s' [E Hin]].
  apply Hx. exists s'. split; [now apply scheduleId_inj | assumption].
Qed.

Lemma scheduleId_fresh (schedule : ScheduleProperty) (child : string * Construct)
    (key : string) (bucket : LocalBucket.t) :
  fst child = "LogArchiveBucket" \/ fst child = "existingBucket" ->
  hasChild (scheduleId schedule) (child :: fixedChildren key bucket) = false.
Proof.
  intros H. unfold hasChild, scheduleId, fixedChildren. cbn [map fst existsb].
  assert (G : forall rest, String.length rest <> 8 ->
                String.eqb ("Schedule" ++ idPrefix schedule) ("Schedule" ++ rest) = false).
  { intros rest Hrest. cbn. apply String_eqb_length. unfold idPrefix.
    now rewrite shake256_hex4_length. }
  assert (G1 := G "Group"). assert (G2 := G "rExecutionRole").
  change ("Schedule" ++ "Group") with "ScheduleGroup" in G1.
  change ("Schedule" ++ "rExecutionRole") with "SchedulerExecutionRole" in G2.
  rewrite G1, G2 by (cbn; lia).
  destruct H as [-> | ->]; reflexivity.
Qed.

Lemma cron_minute_hour_decimal (i : nat) :
  i < 60 ->
  cron_minute_hour ("cron(" ++ decimal i ++ " 13 * * ? *)") = Some (i, 13).
Proof.
  intros H.
  assert (A : forallb cron_ok (seq 0 60) = true) by (vm_compute; reflexivity).
  rewrite forallb_forall in A.
  specialize (A i). unfold cron_ok in A.
  destruct (cron_minute_hour _) as [[m h] |].
  - assert (B : In i (seq 0 60)) by (apply in_seq; lia).
    apply A, andb_prop in B. destruct B as [B1 B2].
    apply Nat.eqb_eq in B1, B2. now subst.
  - assert (B : In i (seq 0 60)) by (apply in_seq; lia).
    now apply A in B.
Qed.

(** ** The children before the loop *)

Section Preamble.

Variable fromBucketName : string -> Error + IBucket.
Variable ctx : Context.
Variable targetBucket : option string.
Variable pre : Children.

Hypothesis Hpre : preamble fromBucketName ctx targetBucket = Some pre.

Lemma preamble_shape :
  exists child bucket,
    pre = child :: fixedChildren (randomNameKey ctx) bucket /\
    ((child = managedBucket ctx /\ bucket = managedLocalBucket /\
      unset targetBucket = true) \/
     (exists b ib, targetBucket = Some b /\ unset targetBucket = false /\
                   fromBucketName b = inr ib /\
                   child = ("existingBucket", ImportedBucket ib) /\
                   bucket = importedLocalBucket ib)).
Proof.
  unfold preamble in Hpre.
  destruct targetBucket as [b |].
  - cbn [unset]. destruct (String.length b =? 0)%nat eqn:E.
    + injection Hpre as <-. eauto 10.
    + destruct (fromBucketName b) as [e | ib] eqn:L; [discriminate |].
      injection Hpre as <-. do 2 eexists. split; [reflexivity |].
      right. exists b, ib. auto.
  - injection Hpre as <-. eauto 10.
Qed.

Lemma preamble_fresh (schedule : ScheduleProperty) :
  hasChild (scheduleId schedule) pre = false.
Proof.
  destruct preamble_shape as [child [bucket [-> H]]].
  apply scheduleId_fresh.
  destruct H as [[-> _] | [b [ib [_ [_ [_ [-> _]]]]]]]; [left | right]; reflexivity.
Qed.

Lemma preamble_schedulesOf : schedulesOf pre = [].
Proof.
  destruct preamble_shape as [child [bucket [-> H]]].
  destruct H as [[-> _] | [b [ib [_ [_ [_ [-> _]]]]]]]; reflexivity.
Qed.

End Preamble.

Lemma resolves_preamble (fromBucketName : string -> Error + IBucket) (ctx : Context)
    (targetBucket : option string) :
  resolves fromBucketName targetBucket = true ->
  exists pre, preamble fromBucketName ctx targetBucket = Some pre.
Proof.
  unfold resolves, preamble. destruct targetBucket as [b |]; [| eauto].
  destruct (String.length b =? 0)%nat; [eauto |].
  destruct (fromBucketName b); [discriminate | eauto].
Qed.

Lemma construct_preamble (fromBucketName : string -> Error + IBucket) (ctx : Context)
    (props : DailyCloudWatchLogArchiverProps) (pre : Children) :
  1 <= List.length (schedules props) <= 60 ->
  preamble fromBucketName ctx (targetBucket props) = Some pre ->
  construct fromBucketName ctx props
  = declare (id ctx) (declarations (randomNameKey ctx) (schedules props)) pre.
Proof.
  intros Hvalid Hpre.
  destruct (preamble_shape _ _ _ Hpre) as [child [bucket [-> H]]].
  destruct H as [[-> [-> H]] | [b [ib [Hb [H [L [-> ->]]]]]]].
  - now apply construct_unset.
  - rewrite Hb in H. now apply construct_named with (b := b).
Qed.

(** ** Looking children up *)

Lemma lookup_app_l (i : string) (t1 t2 : Children) :
  hasChild i t1 = true -> lookup i (t1 ++ t2)%list = lookup i t1.
Proof.
  unfold hasChild, lookup. induction t1 as [| [k v] rest IH]; cbn; [discriminate |].
  destruct (String.eqb i k); [reflexivity | exact IH].
Qed.

Lemma lookup_app_r (i : string) (t1 t2 : Children) :
  hasChild i t1 = false -> lookup i (t1 ++ t2)%list = lookup i t2.
Proof.
  unfold hasChild, lookup. induction t1 as [| [k v] rest IH]; cbn; [reflexivity |].
  destruct (String.eqb i k); [discriminate | exact IH].
Qed.

Lemma lookup_nth (t : Children) :
  forall n i c,
    NoDup (map fst t) -> nth_error t n = Some (i, c) -> lookup i t = Some c.
Proof.
  unfold lookup. induction t as [| [k v] rest IH]; intros n i c Hnd Hn.
  - destruct n; discriminate.
  - inversion Hnd as [| x xs Hx Hxs]; subst. cbn [find fst].
    destruct n as [| n]; cbn in Hn.
    + injection Hn as -> ->. now rewrite String.eqb_refl.
    + destruct (String.eqb_spec i k) as [-> | _].
      * exfalso. apply Hx. apply nth_error_In in Hn.
        now apply (in_map fst) in Hn.
      * now apply IH with (n := n).
Qed.

Lemma declare_inv (this : string) (ds : Children) :
  forall t t',
    declare this ds t = (t', inr tt) ->
    NoDup (map fst ds) /\ t' = (t ++ ds)%list /\
    (forall d, In d ds -> hasChild (fst d) t = false).
Proof.
  induction ds as [| d rest IH]; intros t t' H.
  - cbn in H. injection H as <-. rewrite app_nil_r.
    repeat split; [constructor | intros d []].
  - rewrite declare_cons in H.
    destruct (hasChild (fst d) t) eqn:E; [discriminate |].
    apply IH in H. destruct H as [Hnd [-> Hfresh]].
    assert (F : forall d', In d' rest ->
                hasChild (fst d') t = false /\ fst d' <> fst d).
    { intros d' Hd'. specialize (Hfresh d' Hd'). unfold hasChild in Hfresh.
      rewrite map_app, existsb_app in Hfresh. apply orb_false_elim in Hfresh.
      destruct Hfresh as [F1 F2]. split; [exact F1 |].
      cbn in F2. rewrite orb_false_r in F2. now apply String.eqb_neq. }
    repeat split.
    + cbn. constructor; [| exact Hnd].
      rewrite in_map_iff. intros [d' [Ed' Hd']].
      now apply (proj2 (F d' Hd')).
    + now rewrite <- app_assoc.
    + intros d' [<- | Hd']; [exact E | apply F, Hd'].
Qed.

(** ** When construction succeeds *)

Section Success.

Variable fromBucketName : string -> Error + IBucket.
Variable ctx : Context.
Variable props : DailyCloudWatchLogArchiverProps.
Variable pre : Children.

Hypothesis valid : 1 <= List.length (schedules props) <= 60.
Hypothesis Hpre : preamble fromBucketName ctx (targetBucket props) = Some pre.

Lemma construct_tree :
  fst (construct fromBucketName ctx props)
  = (pre ++ accepted (map fst pre)
                     (declarations (randomNameKey ctx) (schedules props)))%list.
Proof. rewrite (construct_preamble _ _ _ valid Hpre). apply declare_tree. Qed.

Lemma construct_success :
  NoDup (map idPrefix (schedules props)) ->
  construct fromBucketName ctx props
  = ((pre ++ declarations (randomNameKey ctx) (schedules props))%list, inr tt).
Proof.
  intros Hnd. rewrite (construct_preamble _ _ _ valid Hpre).
  apply declare_ok.
  - rewrite declarations_ids. now apply scheduleIds_NoDup.
  - intros d Hd. apply (in_map fst) in Hd. rewrite declarations_ids in Hd.
    apply in_map_iff in Hd. destruct Hd as [s [<- _]].
    exact (preamble_fresh _ _ _ Hpre s).
Qed.

Lemma construct_success_inv (t : Children) :
  construct fromBucketName ctx props = (t, inr tt) ->
  NoDup (map idPrefix (schedules props)).
Proof.
  rewrite (construct_preamble _ _ _ valid Hpre). intros H.
  apply declare_inv in H. destruct H as [Hnd _].
  rewrite declarations_ids in Hnd.
  assert (E : map scheduleId (schedules props)
              = map (append "Schedule") (map idPrefix (schedules props))).
  { now rewrite map_map. }
  rewrite E in Hnd. now apply NoDup_map_inv in Hnd.
Qed.

End Success.

(** ** The schedules of a successful construction *)

Lemma minutes_from (key : string) (xs : list ScheduleProperty) :
  forall k,
    k + List.length xs <= 60 ->
    map (fun s => cron_minute (scheduleExpression s))
        (map (fun e => schedule_props key (fst e) (snd e))
             (combine (map decimal (seq k (List.length xs))) xs))
    = map Some (seq k (List.length xs)).
Proof.
  induction xs as [| x rest IH]; intros k Hk; [reflexivity |].
  cbn [List.length seq map combine] in *.
  rewrite IH by lia. f_equal.
  unfold cron_minute. cbn [schedule_props scheduleExpression fst].
  rewrite cron_minute_hour_decimal by lia. reflexivity.
Qed.

Lemma schedulesOf_nth (key : string) (schedules : list ScheduleProperty) (i : nat) :
  nth_error (schedulesOf (declarations key schedules)) i
  = option_map (schedule_props key (decimal i)) (nth_error schedules i).
Proof.
  rewrite schedulesOf_declarations, nth_error_map, Object_entries_nth.
  now destruct (nth_error schedules i).
Qed.

(** C1, amended: for every props whose schedules list has length n with
    1 <= n <= 60, whose job names have pairwise distinct fingerprints and whose
    target bucket is unset or resolves, construction succeeds and emits exactly
    one schedule per job; the schedule of the job at position i is declared
    under that job's id, at minute i of hour 13, in UTC; the minutes emitted
    are 0, ..., n-1, without duplicates. *)
Theorem schedule_per_job_at_its_minute
    (fromBucketName : string -> Error + IBucket) (ctx : Context)
    (props : DailyCloudWatchLogArchiverProps) :
  1 <= List.length (schedules props) <= 60 ->
  NoDup (map idPrefix (schedules props)) ->
  resolves fromBucketName (targetBucket props) = true ->
  exists t,
    construct fromBucketName ctx props = (t, inr tt) /\
    List.length (schedulesOf t) = List.length (schedules props) /\
    (forall i job,
        nth_error (schedules props) i = Some job ->
        exists s,
          nth_error (schedulesOf t) i = Some s /\
          lookup (scheduleId job) t = Some (CfnSchedule s) /\
          scheduleName s = name job /\
          scheduleExpression s = "cron(" ++ decimal i ++ " 13 * * ? *)" /\
          cron_minute_hour (scheduleExpression s) = Some (i, 13) /\
          scheduleExpressionTimezone s = "UTC") /\
    map (fun s => cron_minute (scheduleExpression s)) (schedulesOf t)
    = map Some (seq 0 (List.length (schedules props))) /\
    NoDup (map (fun s => cron_minute (scheduleExpression s)) (schedulesOf t)).
Proof.
  intros Hvalid Hnd Hres.
  destruct (resolves_preamble _ ctx _ Hres) as [pre Hpre].
  exists (pre ++ declarations (randomNameKey ctx) (schedules props))%list.
  assert (S : schedulesOf (pre ++ declarations (randomNameKey ctx) (schedules props))%list
              = schedulesOf (declarations (randomNameKey ctx) (schedules props))).
  { now rewrite schedulesOf_app, (preamble_schedulesOf _ _ _ Hpre). }
  assert (Mn : map (fun s => cron_minute (scheduleExpression s))
                   (schedulesOf (declarations (randomNameKey ctx) (schedules props)))
               = map Some (seq 0 (List.length (schedules props)))).
  { rewrite schedulesOf_declarations. apply minutes_from. lia. }
  rewrite S. repeat split.
  - now apply construct_success.
  - now rewrite schedulesOf_declarations, length_map, Object_entries_length.
  - intros i job Hi.
    exists (schedule_props (randomNameKey ctx) (decimal i) job).
    assert (Hlt : i < 60).
    { assert (Hs : nth_error (schedules props) i <> None) by now rewrite Hi.
      apply nth_error_Some in Hs. lia. }
    repeat split.
    + now rewrite schedulesOf_nth, Hi.
    + rewrite lookup_app_r by exact (preamble_fresh _ _ _ Hpre job).
      apply lookup_nth with (n := i).
      * rewrite declarations_ids. now apply scheduleIds_NoDup.
      * now rewrite declarations_nth, Hi.
    + cbn [schedule_props scheduleExpression]. now apply cron_minute_hour_decimal.
  - exact Mn.
  - rewrite Mn. apply Finite.Injective_map_NoDup; [| apply seq_NoDup].
    intros a b E. now injection E.
Qed.

Lemma schedule_per_job_at_its_minute_witness :
  exists t,
    construct sample_fromBucketName sample_ctx
              {| schedules := [job_app; job_web]; targetBucket := None |}
    = (t, inr tt) /\
    map (fun s => cron_minute (scheduleExpression s)) (schedulesOf t)
    = [Some 0; Some 1].
Proof.
  destruct (@schedule_per_job_at_its_minute sample_fromBucketName sample_ctx
              {| schedules := [job_app; job_web]; targetBucket := None |})
    as [t [H1 [_ [_ [H2 _]]]]].
  - cbn. lia.
  - vm_compute. repeat constructor; cbn; intuition discriminate.
  - reflexivity.
  - exists t. split; [exact H1 | exact H2].
Defined.

(** C1, as stated, fails: two jobs of one name make a list of length 2, and
    the second schedule is refused for its id, so one schedule is emitted. *)
Lemma same_name_twice_emits_one_schedule :
  let props := {| schedules := [job_app; job_app]; targetBucket := None |} in
  1 <= List.length (schedules props) <= 60 /\
  construct sample_fromBucketName sample_ctx props
  = (fst (construct sample_fromBucketName sample_ctx
                    {| schedules := [job_app]; targetBucket := None |}),
     inl (duplicateName "Archiver" "Scheduled2ce5d61")) /\
  List.length (schedulesOf (fst (construct sample_fromBucketName sample_ctx props)))
  <> List.length (schedules props).
Proof.
  cbn zeta. split; [cbn; lia |]. split; [vm_compute; reflexivity |].
  vm_compute. discriminate.
Qed.

(** Distinct names do not suffice: these two have one fingerprint. *)
Example fingerprint_collision :
  let a := job "export-job-3492" "/a" "a/" in
  let b := job "export-job-44473" "/b" "b/" in
  name a <> name b /\ idPrefix a = "27b02fde" /\ idPrefix b = "27b02fde" /\
  snd (construct sample_fromBucketName sample_ctx
                 {| schedules := [a; b]; targetBucket := None |})
  = inl (duplicateName "Archiver" "Schedule27b02fde").
Proof.
  cbn zeta. split; [discriminate |].
  split; [vm_compute; reflexivity |]. split; vm_compute; reflexivity.
Qed.

(** ** What the loop adds is schedules only *)

Lemma accepted_declaration (key : string) (schedules : list ScheduleProperty)
    (seen : list string) (c : string * Construct) :
  In c (accepted seen (declarations key schedules)) ->
  exists index schedule,
    In schedule schedules /\
    c = (scheduleId schedule, CfnSchedule (schedule_props key index schedule)).
Proof.
  intros H. apply accepted_incl in H. unfold declarations in H.
  apply in_map_iff in H. destruct H as [[index schedule] [<- H]].
  exists index, schedule. split; [| reflexivity].
  rewrite <- (Object_entries_snd schedules). now apply (in_map snd) in H.
Qed.

Lemma resourcePoliciesOf_app (t1 t2 : Children) :
  resourcePoliciesOf (t1 ++ t2)%list
  = (resourcePoliciesOf t1 ++ resourcePoliciesOf t2)%list.
Proof. apply flat_map_app. Qed.

Lemma resourcePoliciesOf_accepted (key : string) (schedules : list ScheduleProperty)
    (seen : list string) :
  resourcePoliciesOf (accepted seen (declarations key schedules)) = [].
Proof.
  assert (H := @accepted_declaration key schedules seen).
  induction (accepted seen (declarations key schedules)) as [| c rest IH];
    [reflexivity |].
  destruct (H c (or_introl eq_refl)) as [index [schedule [_ ->]]].
  cbn. apply IH. intros c' Hc'. apply H. now right.
Qed.

Lemma lookup_accepted_other (key : string) (schedules : list ScheduleProperty)
    (seen : list string) (i : string) :
  (forall schedule, scheduleId schedule <> i) ->
  lookup i (accepted seen (declarations key schedules)) = None.
Proof.
  intros Hi. assert (H := @accepted_declaration key schedules seen).
  unfold lookup.
  induction (accepted seen (declarations key schedules)) as [| c rest IH];
    [reflexivity |].
  destruct (H c (or_introl eq_refl)) as [index [schedule [_ ->]]].
  cbn [find fst]. destruct (String.eqb_spec i (scheduleId schedule)) as [E | _].
  - exfalso. now apply (Hi schedule).
  - apply IH. intros c' Hc'. apply H. now right.
Qed.

Lemma scheduleId_not_bucket (schedule : ScheduleProperty) :
  scheduleId schedule <> "LogArchiveBucket" /\ scheduleId schedule <> "existingBucket".
Proof. unfold scheduleId. split; cbn; discriminate. Qed.

(** C2: the bucket is decided by the test on [targetBucket] alone, and
    exactly one of two ways is taken.  Unset or empty: lines 47 to 94 declare
    the bucket [log-archive-<randomNameKey>] and give it the two statements
    for the logs service principal, [s3:GetBucketAcl] on the bucket ARN and
    [s3:PutObject] on [bucketArn/*] under the bucket-owner-full-control
    condition.  Otherwise they hand the name, and nothing else, to the
    library and declare the bucket it resolves, with no statement (when the
    library throws, so do they, and nothing is declared).  In the tree of a
    construction that passes validation there is accordingly one bucket of
    the one kind, and none of the other. *)
Theorem bucket_mode_by_targetBucket
    (fromBucketName : string -> Error + IBucket) (ctx : Context)
    (props : DailyCloudWatchLogArchiverProps) :
  let t := fst (construct fromBucketName ctx props) in
  let valid := 1 <= List.length (schedules props) <= 60 in
  let logs := ServicePrincipal ("logs." ++ region ctx ++ ".amazonaws.com") in
  let ownArn := token "LogArchiveBucket" "Arn" in
  let statements :=
    [ {| effect := ALLOW; principals := [logs];
         actions := ["s3:GetBucketAcl"];
         resources := [ownArn];
         conditions := [] |};
      {| effect := ALLOW; principals := [logs];
         actions := ["s3:PutObject"];
         resources := [ownArn ++ "/*"];
         conditions := [("StringEquals", [("s3:x-amz-acl", "bucket-owner-full-control")])] |} ] in
  let bucket := SecureLogBucket ("log-archive-" ++ randomNameKey ctx) statements in
  let managed :=
    localBucket fromBucketName ctx (targetBucket props) []
    = ([("LogArchiveBucket", bucket)],
       inr {| LocalBucket.bucketName := token "LogArchiveBucket" "Ref";
              LocalBucket.bucketARN := ownArn |}) /\
    (valid ->
     lookup "LogArchiveBucket" t = Some bucket /\
     lookup "existingBucket" t = None /\
     resourcePoliciesOf t = statements) in
  match targetBucket props with
  | None => managed
  | Some b =>
      if (String.length b =? 0)%nat then managed
      else
        localBucket fromBucketName ctx (targetBucket props) []
        = match fromBucketName b with
          | inr existing =>
              ([("existingBucket", ImportedBucket existing)],
               inr {| LocalBucket.bucketName := bucketName existing;
                      LocalBucket.bucketARN := bucketArn existing |})
          | inl e => ([], inl e)
          end /\
        (valid ->
         lookup "LogArchiveBucket" t = None /\
         resourcePoliciesOf t = [] /\
         match fromBucketName b with
         | inr existing => lookup "existingBucket" t = Some (ImportedBucket existing)
         | inl e => construct fromBucketName ctx props = ([], inl e)
         end)
  end.
Proof.
  intros t valid logs ownArn statements bucket managed.
  assert (Managed : unset (targetBucket props) = true -> managed).
  { intros U. split; [exact (localBucket_unset fromBucketName ctx _ U) |].
    intros Hvalid.
    assert (Hpre : preamble fromBucketName ctx (targetBucket props)
                   = Some (managedBucket ctx
                             :: fixedChildren (randomNameKey ctx) managedLocalBucket)).
    { unfold preamble. destruct (targetBucket props) as [b |]; [| reflexivity].
      cbn [unset] in U. now rewrite U. }
    subst t. rewrite (construct_tree _ _ _ Hvalid Hpre).
    split; [| split].
    - rewrite lookup_app_l by reflexivity. reflexivity.
    - rewrite lookup_app_r by reflexivity.
      apply lookup_accepted_other. intros s. apply scheduleId_not_bucket.
    - rewrite resourcePoliciesOf_app, resourcePoliciesOf_accepted. reflexivity. }
  destruct (targetBucket props) as [b |] eqn:Hb; [| now apply Managed].
  destruct (String.length b =? 0)%nat eqn:Hlen; [now apply Managed |].
  split; [exact (localBucket_named fromBucketName ctx b Hlen) |].
  intros Hvalid.
  destruct (fromBucketName b) as [e | existing] eqn:L.
  - assert (C : construct fromBucketName ctx props = ([], inl e)).
    { apply construct_unresolved with (b := b); auto. }
    subst t. rewrite C. repeat split.
  - assert (Hpre : preamble fromBucketName ctx (targetBucket props)
                   = Some (("existingBucket", ImportedBucket existing)
                             :: fixedChildren (randomNameKey ctx)
                                  (importedLocalBucket existing))).
    { rewrite Hb. cbn. now rewrite Hlen, L. }
    subst t. rewrite (construct_tree _ _ _ Hvalid Hpre).
    split; [| split].
    + rewrite lookup_app_r by reflexivity.
      apply lookup_accepted_other. intros s. apply scheduleId_not_bucket.
    + rewrite resourcePoliciesOf_app, resourcePoliciesOf_accepted. reflexivity.
    + rewrite lookup_app_l by reflexivity. reflexivity.
Qed.

Lemma bucket_mode_by_targetBucket_witness :
  lookup "existingBucket"
         (fst (construct sample_fromBucketName sample_ctx
                         {| schedules := [job_app]; targetBucket := Some "my-bucket" |}))
  = Some (ImportedBucket
            {| bucketName := "my-bucket";
               bucketArn := "arn:${Token[AWS.Partition]}:s3:::my-bucket" |}).
Proof.
  assert (V : 1 <= List.length [job_app] <= 60) by (cbn; lia).
  exact (proj2 (proj2 (proj2 (@bucket_mode_by_targetBucket sample_fromBucketName
           sample_ctx {| schedules := [job_app]; targetBucket := Some "my-bucket" |})
           V))).
Defined.

(** ** When validation fails *)

Lemma construct_invalid (fromBucketName : string -> Error + IBucket) (ctx : Context)
    (props : DailyCloudWatchLogArchiverProps) (e : Error) :
  (forall t, validate props t = (t, inl e)) ->
  forall t, DailyCloudWatchLogArchiver fromBucketName ctx props t = (t, inl e).
Proof.
  intros H t. unfold DailyCloudWatchLogArchiver. unfold bind at 1. now rewrite H.
Qed.

Lemma validate_empty (props : DailyCloudWatchLogArchiverProps) :
  List.length (schedules props) = 0 ->
  forall t, validate props t = (t, inl (JsError "Schedule not set.")).
Proof. intros H t. unfold validate. now rewrite H. Qed.

Lemma validate_too_many (props : DailyCloudWatchLogArchiverProps) :
  60 < List.length (schedules props) ->
  forall t, validate props t = (t, inl (JsError "Maximum number(60) of schedule.")).
Proof.
  intros H t. unfold validate.
  destruct (Nat.eqb_spec (List.length (schedules props)) 0) as [E | _]; [lia |].
  destruct (Nat.ltb_spec 60 (List.length (schedules props))) as [_ | E]; [| lia].
  reflexivity.
Qed.

(** Every run ends in one of three ways: nothing declared, or the children
    before the loop followed by the schedules the loop got to add. *)
Lemma construct_cases (fromBucketName : string -> Error + IBucket) (ctx : Context)
    (props : DailyCloudWatchLogArchiverProps) :
  fst (construct fromBucketName ctx props) = [] \/
  exists pre,
    preamble fromBucketName ctx (targetBucket props) = Some pre /\
    fst (construct fromBucketName ctx props)
    = (pre ++ accepted (map fst pre)
                       (declarations (randomNameKey ctx) (schedules props)))%list.
Proof.
  destruct (Nat.eq_dec (List.length (schedules props)) 0) as [E | E].
  { left. unfold construct.
    now rewrite (construct_invalid fromBucketName ctx props (validate_empty props E)). }
  destruct (le_lt_dec (List.length (schedules props)) 60) as [L | L].
  2: { left. unfold construct.
       now rewrite (construct_invalid fromBucketName ctx props
                      (validate_too_many props L)). }
  assert (V : 1 <= List.length (schedules props) <= 60) by lia.
  destruct (preamble fromBucketName ctx (targetBucket props)) as [pre |] eqn:Hpre.
  - right. exists pre. split; [reflexivity |]. now apply construct_tree.
  - left. unfold preamble in Hpre.
    destruct (targetBucket props) as [b |] eqn:Hb; [| discriminate].
    destruct (String.length b =? 0)%nat eqn:Hlen; [discriminate |].
    destruct (fromBucketName b) as [e | bucket] eqn:Lb; [| discriminate].
    now rewrite (construct_unresolved fromBucketName ctx props V Hb Hlen Lb).
Qed.

(** C3: with an empty schedules list, and with one longer than 60, the
    constructor throws at its first lines and leaves the children as they
    were: the construct that started without a child has none. *)
Theorem validation_fails_before_any_resource
    (fromBucketName : string -> Error + IBucket) (ctx : Context)
    (props : DailyCloudWatchLogArchiverProps) :
  (List.length (schedules props) = 0 ->
   (forall t, DailyCloudWatchLogArchiver fromBucketName ctx props t
              = (t, inl (JsError "Schedule not set."))) /\
   construct fromBucketName ctx props = ([], inl (JsError "Schedule not set."))) /\
  (60 < List.length (schedules props) ->
   (forall t, DailyCloudWatchLogArchiver fromBucketName ctx props t
              = (t, inl (JsError "Maximum number(60) of schedule."))) /\
   construct fromBucketName ctx props
   = ([], inl (JsError "Maximum number(60) of schedule."))).
Proof.
  split; intros H.
  - assert (G := construct_invalid fromBucketName ctx props (validate_empty props H)).
    split; [exact G | apply G].
  - assert (G := construct_invalid fromBucketName ctx props (validate_too_many props H)).
    split; [exact G | apply G].
Qed.

Lemma validation_fails_before_any_resource_witness :
  construct sample_fromBucketName sample_ctx
            {| schedules := []; targetBucket := None |}
  = ([], inl (JsError "Schedule not set.")) /\
  construct sample_fromBucketName sample_ctx
            {| schedules := repeat job_app 61; targetBucket := Some "my-bucket" |}
  = ([], inl (JsError "Maximum number(60) of schedule.")).
Proof.
  split.
  - apply (proj1 (@validation_fails_before_any_resource sample_fromBucketName
                    sample_ctx {| schedules := []; targetBucket := None |})).
    reflexivity.
  - apply (proj2 (@validation_fails_before_any_resource sample_fromBucketName
                    sample_ctx
                    {| schedules := repeat job_app 61;
                       targetBucket := Some "my-bucket" |})).
    cbn. lia.
Defined.

(** ** The two roles *)

Lemma construct_fixed_children (fromBucketName : string -> Error + IBucket)
    (ctx : Context) (props : DailyCloudWatchLogArchiverProps) :
  1 <= List.length (schedules props) <= 60 ->
  resolves fromBucketName (targetBucket props) = true ->
  exists child bucket,
    (fst child = "LogArchiveBucket" \/ fst child = "existingBucket") /\
    (forall r, snd child <> Role r) /\
    fst (construct fromBucketName ctx props)
    = ((child :: fixedChildren (randomNameKey ctx) bucket)
         ++ accepted (map fst (child :: fixedChildren (randomNameKey ctx) bucket))
                     (declarations (randomNameKey ctx) (schedules props)))%list.
Proof.
  intros Hvalid Hres.
  destruct (resolves_preamble _ ctx _ Hres) as [pre Hpre].
  rewrite (construct_tree _ _ _ Hvalid Hpre).
  destruct (preamble_shape _ _ _ Hpre) as [child [bucket [-> H]]].
  exists child, bucket.
  destruct H as [[-> _] | [b [ib [_ [_ [_ [-> _]]]]]]].
  - split; [now left |]. now split.
  - split; [now right |]. now split.
Qed.

(** C4, on the code: for the input of the end-to-end scenario the Lambda
    execution role is trusted by the lambda service principal, has the basic
    execution managed policy, [logs:CreateExportTask] on [*], and
    [s3:GetBucketAcl] with [s3:PutObject] on the bucket ARN alone: the
    object-prefix ARN [bucketArn/*] is a resource of none of its statements. *)
Theorem lambda_role_put_bucket_policy_scope :
  let t := fst (construct sample_fromBucketName sample_ctx
                          {| schedules := [job_app]; targetBucket := None |}) in
  let bucketArn := token "LogArchiveBucket" "Arn" in
  exists r,
    lookup "LambdaExecutionRole" t = Some (Role r) /\
    assumedBy r = ServicePrincipal "lambda.amazonaws.com" /\
    managedPolicies r = ["service-role/AWSLambdaBasicExecutionRole"] /\
    inlinePolicy "log-export-policy" r
    = Some [ {| effect := ALLOW; principals := [];
                actions := ["logs:CreateExportTask"];
                resources := ["*"];
                conditions := [] |} ] /\
    inlinePolicy "put-bucket-policy" r
    = Some [ {| effect := ALLOW; principals := [];
                actions := ["s3:GetBucketAcl"; "s3:PutObject"];
                resources := [bucketArn];
                conditions := [] |} ] /\
    List.length (inlinePolicies r) = 2 /\
    forall policy statement,
      In policy (inlinePolicies r) -> In statement (snd policy) ->
      ~ In (bucketArn ++ "/*") (resources statement).
Proof.
  eexists. split; [vm_compute; reflexivity |].
  repeat (split; [reflexivity |]).
  intros policy statement Hp Hs Hin. cbn in Hp.
  destruct Hp as [<- | [<- | []]]; cbn in Hs; destruct Hs as [<- | []];
    cbn in Hin; destruct Hin as [E | []]; discriminate E.
Qed.

(** Whatever the input, the statement of [put-bucket-policy] has the one
    resource held in [localBucket.bucketARN]. *)
Lemma lambda_role_resources (key : string) (bucket : LocalBucket.t) :
  inlinePolicy "put-bucket-policy" (lambdaExecutionRole key bucket)
  = Some [ {| effect := ALLOW; principals := [];
              actions := ["s3:GetBucketAcl"; "s3:PutObject"];
              resources := [LocalBucket.bucketARN bucket];
              conditions := [] |} ].
Proof. reflexivity. Qed.

(** C7: when construction gets past validation and the bucket, the tree has
    the role [SchedulerExecutionRole]: trusted by the scheduler service
    principal, no managed policy, one inline policy of one statement,
    [lambda:InvokeFunction] on the ARN of [LogArchiveFunction] and on that
    ARN followed by [:*].  No other role of the tree trusts the scheduler,
    and no other statement of any role allows [lambda:InvokeFunction]. *)
Theorem scheduler_role_invokes_the_function_only
    (fromBucketName : string -> Error + IBucket) (ctx : Context)
    (props : DailyCloudWatchLogArchiverProps) :
  1 <= List.length (schedules props) <= 60 ->
  resolves fromBucketName (targetBucket props) = true ->
  let t := fst (construct fromBucketName ctx props) in
  let functionArn := token "LogArchiveFunction" "Arn" in
  lookup "SchedulerExecutionRole" t
  = Some (Role {| roleName := None;
                  roleDescription := None;
                  assumedBy := ServicePrincipal "scheduler.amazonaws.com";
                  managedPolicies := [];
                  inlinePolicies :=
                    [ ("lambda-invoke-policy",
                       [ {| effect := ALLOW; principals := [];
                            actions := ["lambda:InvokeFunction"];
                            resources := [functionArn; functionArn ++ ":*"];
                            conditions := [] |} ]) ] |}) /\
  (exists f, lookup "LogArchiveFunction" t = Some (LogArchiverFunction f)) /\
  (forall i r,
      In (i, Role r) t ->
      (assumedBy r = ServicePrincipal "scheduler.amazonaws.com" \/
       exists policy statement,
         In policy (inlinePolicies r) /\ In statement (snd policy) /\
         In "lambda:InvokeFunction" (actions statement)) ->
      i = "SchedulerExecutionRole").
Proof.
  intros Hvalid Hres t functionArn. subst t.
  destruct (construct_fixed_children _ ctx _ Hvalid Hres)
    as [[ci cc] [bucket [Hid [Hrole ->]]]].
  cbn [fst snd] in Hid, Hrole.
  split; [| split].
  - rewrite lookup_app_l; destruct Hid as [-> | ->]; reflexivity.
  - eexists. rewrite lookup_app_l; destruct Hid as [-> | ->]; reflexivity.
  - intros i r Hin Hr. apply in_app_or in Hin. destruct Hin as [Hin | Hin].
    + cbn in Hin.
      destruct Hin as [E | [E | [E | [E | [E | []]]]]]; try discriminate E.
      * injection E as _ E. now apply Hrole in E.
      * injection E as <- <-. exfalso.
        destruct Hr as [Hr | [policy [statement [Hp [Hs Ha]]]]]; [discriminate Hr |].
        cbn in Hp. destruct Hp as [<- | [<- | []]]; cbn in Hs;
          destruct Hs as [<- | []]; cbn in Ha; intuition discriminate.
      * now injection E as <- _.
    + apply accepted_declaration in Hin.
      destruct Hin as [index [schedule [_ E]]]. discriminate E.
Qed.

Lemma scheduler_role_invokes_the_function_only_witness :
  exists f,
    lookup "LogArchiveFunction"
           (fst (construct sample_fromBucketName sample_ctx
                           {| schedules := [job_app; job_web];
                              targetBucket := Some "my-bucket" |}))
    = Some (LogArchiverFunction f).
Proof.
  assert (V : 1 <= List.length [job_app; job_web] <= 60) by (cbn; lia).
  exact (proj1 (proj2 (@scheduler_role_invokes_the_function_only
                         sample_fromBucketName sample_ctx
                         {| schedules := [job_app; job_web];
                            targetBucket := Some "my-bucket" |} V eq_refl))).
Defined.

(** C9: when a non-empty target bucket is supplied and the library's
    resolution of it throws, the constructor throws that error, at once:
    nothing has been declared, and there is no second attempt. *)
Theorem unresolved_bucket_is_fatal
    (fromBucketName : string -> Error + IBucket) (ctx : Context)
    (props : DailyCloudWatchLogArchiverProps) (b : string) (e : Error) :
  1 <= List.length (schedules props) <= 60 ->
  targetBucket props = Some b ->
  b <> "" ->
  fromBucketName b = inl e ->
  construct fromBucketName ctx props = ([], inl e).
Proof.
  intros Hvalid Hb Hne L.
  apply construct_unresolved with (b := b); auto.
  cbn. destruct b; [contradiction | reflexivity].
Qed.

Lemma unresolved_bucket_is_fatal_witness :
  construct sample_fromBucketName sample_ctx
            {| schedules := [job_app]; targetBucket := Some "my" |}
  = ([], inl (JsError "Invalid S3 bucket name (value: my)")).
Proof.
  apply (@unresolved_bucket_is_fatal sample_fromBucketName sample_ctx
           {| schedules := [job_app]; targetBucket := Some "my" |} "my").
  - cbn. lia.
  - reflexivity.
  - discriminate.
  - reflexivity.
Defined.

(** ** The payload reads back *)

Lemma JSON_unescape_escape (c : ascii) (tail : string) :
  JSON_unescape (JSON_escape c ++ tail) = prepend c (JSON_unescape tail).
Proof.
  destruct c as [[] [] [] [] [] [] [] []]; reflexivity.
Qed.

Lemma string_app_assoc (a b c : string) : (a ++ b) ++ c = a ++ (b ++ c).
Proof. induction a as [| x a IH]; cbn; [reflexivity | now rewrite IH]. Qed.

Lemma JSON_unescape_all (s rest : string) :
  JSON_unescape (JSON_escape_all s ++ String dquote rest) = Some (s, rest).
Proof.
  induction s as [| c s IH]; [reflexivity |].
  cbn [JSON_escape_all]. rewrite string_app_assoc, JSON_unescape_escape, IH.
  reflexivity.
Qed.

Lemma JSON_string_quote (s rest : string) :
  JSON_string (JSON_quote s ++ rest) = Some (s, rest).
Proof.
  unfold JSON_quote. cbn [append JSON_string]. rewrite Ascii.eqb_refl.
  rewrite string_app_assoc. apply JSON_unescape_all.
Qed.

Lemma JSON_parse_stringify (o : ScheduleTargetProperty) :
  JSON_parse (JSON_stringify o) = Some o.
Proof.
  destruct o as [lg dp]. unfold JSON_parse, JSON_stringify.
  cbn [logGroupName destinationPrefix].
  change (strip_prefix "{" ("{" ++ ?x)) with (Some x).
  cbv beta iota. rewrite JSON_string_quote.
  change (strip_prefix ":" (":" ++ ?x)) with (Some x).
  cbv beta iota. rewrite JSON_string_quote.
  change (strip_prefix "," ("," ++ ?x)) with (Some x).
  cbv beta iota. rewrite JSON_string_quote.
  change (strip_prefix ":" (":" ++ ?x)) with (Some x).
  cbv beta iota. rewrite JSON_string_quote.
  reflexivity.
Qed.

(** ** Every schedule of a tree comes from a job *)

Lemma schedulesOf_In (t : Children) (s : CfnScheduleProps) :
  In s (schedulesOf t) <-> exists i, In (i, CfnSchedule s) t.
Proof.
  unfold schedulesOf. rewrite in_flat_map. split.
  - intros [[i c] [Hin Hs]]. cbn in Hs. destruct c; try contradiction.
    destruct Hs as [-> | []]. now exists i.
  - intros [i Hin]. exists (i, CfnSchedule s). split; [exact Hin | now left].
Qed.

Lemma construct_schedule_origin (fromBucketName : string -> Error + IBucket)
    (ctx : Context) (props : DailyCloudWatchLogArchiverProps) (s : CfnScheduleProps) :
  In s (schedulesOf (fst (construct fromBucketName ctx props))) ->
  exists index job,
    In job (schedules props) /\
    In (scheduleId job, CfnSchedule s) (fst (construct fromBucketName ctx props)) /\
    s = schedule_props (randomNameKey ctx) index job.
Proof.
  intros H.
  destruct (construct_cases fromBucketName ctx props) as [E | [pre [Hpre E]]];
    rewrite E in *; [contradiction |].
  rewrite schedulesOf_app, (preamble_schedulesOf _ _ _ Hpre) in H. cbn [app] in H.
  apply schedulesOf_In in H. destruct H as [i Hin].
  destruct (accepted_declaration _ _ _ _ Hin) as [index [job [Hjob Ec]]].
  injection Ec as -> ->. exists index, job.
  split; [exact Hjob |]. split; [| reflexivity].
  apply in_or_app. now right.
Qed.

(** C8: every schedule of the tree, whatever the input, has the retry
    policy [maximumEventAgeInSeconds = 60], [maximumRetryAttempts = 0], and
    comes from a job of the list: it is declared under that job's id with
    that job's name, and its input is the JSON text of the job's
    [logGroupName] and [destinationPrefix], which reads back as the job's
    target. *)
Theorem schedule_payload_and_retry_policy
    (fromBucketName : string -> Error + IBucket) (ctx : Context)
    (props : DailyCloudWatchLogArchiverProps) (s : CfnScheduleProps) :
  In s (schedulesOf (fst (construct fromBucketName ctx props))) ->
  retryPolicy (scheduleTarget s)
  = {| maximumEventAgeInSeconds := 60; maximumRetryAttempts := 0 |} /\
  exists job,
    In job (schedules props) /\
    In (scheduleId job, CfnSchedule s) (fst (construct fromBucketName ctx props)) /\
    scheduleName s = name job /\
    input (scheduleTarget s)
    = "{" ++ JSON_quote "logGroupName" ++ ":"
          ++ JSON_quote (logGroupName (target job)) ++ ","
          ++ JSON_quote "destinationPrefix" ++ ":"
          ++ JSON_quote (destinationPrefix (target job)) ++ "}" /\
    JSON_parse (input (scheduleTarget s)) = Some (target job).
Proof.
  intros H.
  destruct (construct_schedule_origin _ _ _ _ H) as [index [job [Hjob [Hin ->]]]].
  split; [reflexivity |]. exists job.
  repeat (split; [assumption || reflexivity |]).
  cbn [schedule_props scheduleTarget input].
  rewrite JSON_parse_stringify. now destruct job as [n d [lg dp]].
Qed.

Lemma schedule_payload_and_retry_policy_witness :
  let s := schedule_props (randomNameKey sample_ctx) "1" job_web in
  retryPolicy (scheduleTarget s)
  = {| maximumEventAgeInSeconds := 60; maximumRetryAttempts := 0 |} /\
  exists job,
    In job [job_app; job_web] /\
    JSON_parse (input (scheduleTarget s)) = Some (target job).
Proof.
  intros s.
  destruct (@schedule_payload_and_retry_policy sample_fromBucketName sample_ctx
              {| schedules := [job_app; job_web]; targetBucket := None |} s)
    as [R [job [Hjob [_ [_ [_ P]]]]]].
  - vm_compute. right. left. reflexivity.
  - split; [exact R |]. exists job. split; [exact Hjob | exact P].
Defined.

(** C10: a schedules list of 1 to 60 jobs passes validation whatever the
    names in it; two jobs of one name, at any two positions, get the same
    8-hex fingerprint, so the loop declares them under the same id and with
    the same schedule name. *)
Theorem equal_names_share_fingerprint_and_id
    (props : DailyCloudWatchLogArchiverProps) (key : string)
    (i j : nat) (a b : ScheduleProperty) :
  1 <= List.length (schedules props) <= 60 ->
  nth_error (schedules props) i = Some a ->
  nth_error (schedules props) j = Some b ->
  name a = name b ->
  (forall t, validate props t = (t, inr tt)) /\
  idPrefix a = idPrefix b /\
  is_hex8 (idPrefix a) = true /\
  exists sa sb,
    nth_error (declarations key (schedules props)) i
    = Some ("Schedule" ++ idPrefix a, CfnSchedule sa) /\
    nth_error (declarations key (schedules props)) j
    = Some ("Schedule" ++ idPrefix a, CfnSchedule sb) /\
    scheduleName sa = scheduleName sb.
Proof.
  intros Hvalid Ha Hb E.
  assert (F : idPrefix a = idPrefix b) by (unfold idPrefix; now rewrite E).
  split; [intros t; now apply validate_ok |].
  split; [exact F |].
  split; [apply shake256_hex4_is_hex8 |].
  exists (schedule_props key (decimal i) a), (schedule_props key (decimal j) b).
  rewrite !declarations_nth, Ha, Hb. cbn [option_map]. unfold scheduleId.
  rewrite <- F. split; [reflexivity |]. split; [reflexivity | exact E].
Qed.

Lemma equal_names_share_fingerprint_and_id_witness :
  idPrefix job_app = idPrefix (job "daily-app-logs" "/other" "other/") /\
  is_hex8 (idPrefix job_app) = true.
Proof.
  destruct (@equal_names_share_fingerprint_and_id
              {| schedules := [job_app; job "daily-app-logs" "/other" "other/"];
                 targetBucket := None |}
              (randomNameKey sample_ctx) 0 1
              job_app (job "daily-app-logs" "/other" "other/"))
    as [_ [F [H _]]].
  - cbn. lia.
  - reflexivity.
  - reflexivity.
  - reflexivity.
  - split; [exact F | exact H].
Defined.

(** ** Two runs *)

Lemma construct_depends (fromBucketName : string -> Error + IBucket)
    (ctx1 ctx2 : Context) (props : DailyCloudWatchLogArchiverProps) :
  randomNameKey ctx1 = randomNameKey ctx2 ->
  region ctx1 = region ctx2 ->
  id ctx1 = id ctx2 ->
  construct fromBucketName ctx1 props = construct fromBucketName ctx2 props.
Proof.
  intros K R I.
  unfold construct, DailyCloudWatchLogArchiver, localBucket, logArchiveBucket,
    existingBucket, declareSchedules.
  now rewrite K, R, I.
Qed.

Lemma preamble_two_runs (fromBucketName : string -> Error + IBucket)
    (ctx1 ctx2 : Context) (targetBucket : option string) (pre1 : Children) :
  randomNameKey ctx1 = randomNameKey ctx2 ->
  preamble fromBucketName ctx1 targetBucket = Some pre1 ->
  exists pre2,
    preamble fromBucketName ctx2 targetBucket = Some pre2 /\
    map fst pre1 = map fst pre2 /\
    (region ctx1 = region ctx2 -> pre1 = pre2).
Proof.
  intros K H. unfold preamble in *.
  destruct targetBucket as [b |].
  - destruct (String.length b =? 0)%nat.
    + injection H as <-. eexists. split; [reflexivity |].
      split; [reflexivity |]. intros R. unfold managedBucket. now rewrite K, R.
    + destruct (fromBucketName b) as [e | ib]; [discriminate |].
      injection H as <-. eexists. split; [reflexivity |].
      split; [reflexivity |]. intros _. now rewrite K.
  - injection H as <-. eexists. split; [reflexivity |].
    split; [reflexivity |]. intros R. unfold managedBucket. now rewrite K, R.
Qed.

(** C6: two runs on the same props, by contexts of the same identity
    string, compute the same [randomNameKey], of 8 hex digits, and the same
    8-hex fingerprint for every job; their trees have the same children ids
    and the same schedules; with the same region the trees are equal, and
    with the same construct id also the results are. *)
Theorem same_identity_same_derivation
    (fromBucketName : string -> Error + IBucket) (ctx1 ctx2 : Context)
    (props : DailyCloudWatchLogArchiverProps) :
  identity ctx1 = identity ctx2 ->
  randomNameKey ctx1 = randomNameKey ctx2 /\
  is_hex8 (randomNameKey ctx1) = true /\
  (forall job, In job (schedules props) -> is_hex8 (idPrefix job) = true) /\
  map fst (fst (construct fromBucketName ctx1 props))
  = map fst (fst (construct fromBucketName ctx2 props)) /\
  schedulesOf (fst (construct fromBucketName ctx1 props))
  = schedulesOf (fst (construct fromBucketName ctx2 props)) /\
  (region ctx1 = region ctx2 ->
   fst (construct fromBucketName ctx1 props)
   = fst (construct fromBucketName ctx2 props)) /\
  (region ctx1 = region ctx2 -> id ctx1 = id ctx2 ->
   construct fromBucketName ctx1 props = construct fromBucketName ctx2 props).
Proof.
  intros H.
  assert (K : randomNameKey ctx1 = randomNameKey ctx2)
    by (unfold randomNameKey; now rewrite H).
  split; [exact K |].
  split; [apply shake256_hex4_is_hex8 |].
  split; [intros job _; apply shake256_hex4_is_hex8 |].
  assert (T : map fst (fst (construct fromBucketName ctx1 props))
              = map fst (fst (construct fromBucketName ctx2 props)) /\
              schedulesOf (fst (construct fromBucketName ctx1 props))
              = schedulesOf (fst (construct fromBucketName ctx2 props)) /\
              (region ctx1 = region ctx2 ->
               fst (construct fromBucketName ctx1 props)
               = fst (construct fromBucketName ctx2 props))).
  { destruct (Nat.eq_dec (List.length (schedules props)) 0) as [E | E].
    { unfold construct.
      rewrite !(construct_invalid fromBucketName _ props (validate_empty props E)).
      auto. }
    destruct (le_lt_dec (List.length (schedules props)) 60) as [L | L].
    2: { unfold construct.
         rewrite !(construct_invalid fromBucketName _ props
                     (validate_too_many props L)).
         auto. }
    assert (V : 1 <= List.length (schedules props) <= 60) by lia.
    destruct (preamble fromBucketName ctx1 (targetBucket props)) as [pre1 |] eqn:P1.
    - destruct (@preamble_two_runs fromBucketName ctx1 ctx2 _ _ K P1)
        as [pre2 [P2 [Ids Eq]]].
      rewrite (construct_tree _ _ _ V P1), (construct_tree _ _ _ V P2).
      rewrite !map_app, !schedulesOf_app.
      rewrite (preamble_schedulesOf _ _ _ P1), (preamble_schedulesOf _ _ _ P2).
      rewrite <- Ids, <- K. split; [reflexivity |]. split; [reflexivity |].
      intros R. now rewrite (Eq R).
    - unfold preamble in P1.
      destruct (targetBucket props) as [b |] eqn:Hb; [| discriminate].
      destruct (String.length b =? 0)%nat eqn:Hlen; [discriminate |].
      destruct (fromBucketName b) as [e | bucket] eqn:Lb; [| discriminate].
      rewrite !(construct_unresolved fromBucketName _ props V Hb Hlen Lb).
      auto. }
  destruct T as [T1 [T2 T3]].
  split; [exact T1 |]. split; [exact T2 |]. split; [exact T3 |].
  intros R I. now apply construct_depends.
Qed.

Lemma same_identity_same_derivation_witness :
  let ctx1 := {| id := "A"; scopeUniqueId := "Stack-Stage"; thisUniqueId := "Archiver";
                 region := "us-east-1" |} in
  let ctx2 := {| id := "B"; scopeUniqueId := "Stack"; thisUniqueId := "Stage-Archiver";
                 region := "eu-west-1" |} in
  randomNameKey ctx1 = randomNameKey ctx2 /\
  schedulesOf (fst (construct sample_fromBucketName ctx1
                              {| schedules := [job_app; job_web]; targetBucket := None |}))
  = schedulesOf (fst (construct sample_fromBucketName ctx2
                                {| schedules := [job_app; job_web]; targetBucket := None |})).
Proof.
  intros ctx1 ctx2.
  destruct (@same_identity_same_derivation sample_fromBucketName ctx1 ctx2
              {| schedules := [job_app; job_web]; targetBucket := None |})
    as [K [_ [_ [_ [S _]]]]].
  - reflexivity.
  - split; [exact K | exact S].
Defined.

(** ** Reordering *)

(** C5: take a list of at most 60 jobs and any reordering of it.  The loop
    of either construction declares its children one entry after the other;
    for a job at position i of the first list and position j of the second,
    the child it declares has the same id in both, the id made of the
    fingerprint of the job's name alone, and is the schedule at minute i in
    the first and at minute j in the second, the same otherwise.  When the
    jobs are accepted (at least one, fingerprints pairwise distinct, bucket
    resolved) both constructions succeed and these schedules are the ones
    found under the job's id in the two trees. *)
Theorem reordering_keeps_ids_and_moves_minutes
    (fromBucketName : string -> Error + IBucket) (ctx : Context)
    (targetBucket : option string) (jobs jobs' : list ScheduleProperty) :
  Permutation jobs jobs' ->
  List.length jobs <= 60 ->
  let key := randomNameKey ctx in
  declareSchedules ctx jobs = declare (id ctx) (declarations key jobs) /\
  declareSchedules ctx jobs' = declare (id ctx) (declarations key jobs') /\
  Permutation (map fst (declarations key jobs)) (map fst (declarations key jobs')) /\
  forall i j job,
    nth_error jobs i = Some job ->
    nth_error jobs' j = Some job ->
    scheduleId job = "Schedule" ++ shake256_hex4 (name job) /\
    exists s s',
      nth_error (declarations key jobs) i = Some (scheduleId job, CfnSchedule s) /\
      nth_error (declarations key jobs') j = Some (scheduleId job, CfnSchedule s') /\
      cron_minute (scheduleExpression s) = Some i /\
      cron_minute (scheduleExpression s') = Some j /\
      scheduleName s = name job /\ scheduleName s' = name job /\
      scheduleDescription s = scheduleDescription s' /\
      groupName s = groupName s' /\
      scheduleTarget s = scheduleTarget s' /\
      (1 <= List.length jobs ->
       NoDup (map idPrefix jobs) ->
       resolves fromBucketName targetBucket = true ->
       exists t t',
         construct fromBucketName ctx
                   {| schedules := jobs; targetBucket := targetBucket |}
         = (t, inr tt) /\
         construct fromBucketName ctx
                   {| schedules := jobs'; targetBucket := targetBucket |}
         = (t', inr tt) /\
         lookup (scheduleId job) t = Some (CfnSchedule s) /\
         lookup (scheduleId job) t' = Some (CfnSchedule s')).
Proof.
  intros Hperm Hlen key.
  assert (Hlen' : List.length jobs' <= 60)
    by now rewrite <- (Permutation_length Hperm).
  split; [apply declareSchedules_declare |].
  split; [apply declareSchedules_declare |].
  split.
  { rewrite !declarations_ids. now apply Permutation_map. }
  intros i j job Hi Hj. split; [reflexivity |].
  exists (schedule_props key (decimal i) job), (schedule_props key (decimal j) job).
  assert (Li : i < 60).
  { assert (Hs : nth_error jobs i <> None) by now rewrite Hi.
    apply nth_error_Some in Hs. lia. }
  assert (Lj : j < 60).
  { assert (Hs : nth_error jobs' j <> None) by now rewrite Hj.
    apply nth_error_Some in Hs. lia. }
  split; [now rewrite declarations_nth, Hi |].
  split; [now rewrite declarations_nth, Hj |].
  unfold cron_minute. cbn [schedule_props scheduleExpression].
  rewrite !cron_minute_hour_decimal by assumption.
  do 7 (split; [reflexivity |]).
  intros Hpos Hnd Hres.
  assert (Hnd' : NoDup (map idPrefix jobs'))
    by exact (Permutation_NoDup (Permutation_map idPrefix Hperm) Hnd).
  destruct (resolves_preamble _ ctx _ Hres) as [pre Hpre].
  exists (pre ++ declarations key jobs)%list, (pre ++ declarations key jobs')%list.
  assert (Look : forall l n,
             NoDup (map idPrefix l) -> nth_error l n = Some job ->
             lookup (scheduleId job) (pre ++ declarations key l)%list
             = Some (CfnSchedule (schedule_props key (decimal n) job))).
  { intros l n Hl Hn.
    rewrite lookup_app_r by exact (preamble_fresh _ _ _ Hpre job).
    apply lookup_nth with (n := n).
    - rewrite declarations_ids. now apply scheduleIds_NoDup.
    - now rewrite declarations_nth, Hn. }
  assert (Hpos' : 1 <= List.length jobs')
    by now rewrite <- (Permutation_length Hperm).
  split.
  { apply construct_success; cbn [schedules]; [lia | exact Hpre | exact Hnd]. }
  split.
  { apply construct_success; cbn [schedules]; [lia | exact Hpre | exact Hnd']. }
  split; now apply Look.
Qed.

Lemma reordering_keeps_ids_and_moves_minutes_witness :
  exists t t' s s',
    construct sample_fromBucketName sample_ctx
              {| schedules := [job_app; job_web]; targetBucket := None |}
    = (t, inr tt) /\
    construct sample_fromBucketName sample_ctx
              {| schedules := [job_web; job_app]; targetBucket := None |}
    = (t', inr tt) /\
    lookup (scheduleId job_app) t = Some (CfnSchedule s) /\
    lookup (scheduleId job_app) t' = Some (CfnSchedule s') /\
    cron_minute (scheduleExpression s) = Some 0 /\
    cron_minute (scheduleExpression s') = Some 1.
Proof.
  destruct (@reordering_keeps_ids_and_moves_minutes sample_fromBucketName sample_ctx
              None [job_app; job_web] [job_web; job_app])
    as [_ [_ [_ H]]].
  - apply perm_swap.
  - cbn. lia.
  - destruct (H 0 1 job_app eq_refl eq_refl)
      as [_ [s [s' [_ [_ [M1 [M2 [_ [_ [_ [_ [_ T]]]]]]]]]]]].
    destruct T as [t [t' [C1 [C2 [L1 L2]]]]].
    + cbn. lia.
    + vm_compute. repeat constructor; cbn; intuition discriminate.
    + reflexivity.
    + exists t, t', s, s'. auto 10.
Defined.

(** Two jobs of one name in a list that passes validation: the constructor
    throws. *)
Lemma equal_names_throw (fromBucketName : string -> Error + IBucket) (ctx : Context)
    (props : DailyCloudWatchLogArchiverProps) (i j : nat) (a b : ScheduleProperty) :
  1 <= List.length (schedules props) <= 60 ->
  resolves fromBucketName (targetBucket props) = true ->
  i <> j ->
  nth_error (schedules props) i = Some a ->
  nth_error (schedules props) j = Some b ->
  name a = name b ->
  exists e, snd (construct fromBucketName ctx props) = inl e.
Proof.
  intros Hvalid Hres Hij Ha Hb E.
  destruct (construct fromBucketName ctx props) as [t [e | []]] eqn:C;
    [now exists e |].
  exfalso.
  destruct (resolves_preamble _ ctx _ Hres) as [pre Hpre].
  assert (Hnd := construct_success_inv _ _ _ Hvalid Hpre C).
  apply Hij.
  apply (proj1 (NoDup_nth_error (map idPrefix (schedules props))) Hnd).
  - rewrite length_map. apply nth_error_Some. now rewrite Ha.
  - rewrite !nth_error_map, Ha, Hb. cbn. unfold idPrefix. now rewrite E.
Qed.

(** ** The loop over a list in two parts *)


Lemma entries_from_app {A : Type} (l1 l2 : list A) :
  forall k,
    combine (map decimal (seq k (List.length (l1 ++ l2)%list))) (l1 ++ l2)%list
    = (combine (map decimal (seq k (List.length l1))) l1
       ++ combine (map decimal (seq (k + List.length l1) (List.length l2))) l2)%list.
Proof.
  induction l1 as [| x rest IH]; intros k.
  - cbn. now rewrite Nat.add_0_r.
  - cbn [app List.length seq map combine]. rewrite IH.
    now rewrite Nat.add_succ_r.
Qed.

Lemma declarations_app (key : string) (l1 l2 : list ScheduleProperty) :
  declarations key (l1 ++ l2)%list
  = (declarations key l1
     ++ map (declaration key)
            (combine (map decimal (seq (List.length l1) (List.length l2))) l2))%list.
Proof.
  unfold declarations, Object_entries.
  now rewrite (entries_from_app l1 l2 0), map_app.
Qed.

Lemma hasChild_In (i : string) (t : Children) :
  hasChild i t = true <-> In i (map fst t).
Proof.
  unfold hasChild. rewrite existsb_exists. split.
  - intros [x [Hin E]]. apply String.eqb_eq in E. now subst.
  - intros H. exists i. split; [exact H | apply String.eqb_refl].
Qed.

Lemma construct_valid_of_child (fromBucketName : string -> Error + IBucket)
    (ctx : Context) (props : DailyCloudWatchLogArchiverProps) (c : string * Construct) :
  In c (fst (construct fromBucketName ctx props)) ->
  1 <= List.length (schedules props) <= 60.
Proof.
  intros H.
  destruct (Nat.eq_dec (List.length (schedules props)) 0) as [E | E].
  { unfold construct in H.
    rewrite (construct_invalid fromBucketName ctx props (validate_empty props E)) in H.
    contradiction. }
  destruct (le_lt_dec (List.length (schedules props)) 60) as [L | L]; [lia |].
  unfold construct in H.
  rewrite (construct_invalid fromBucketName ctx props (validate_too_many props L)) in H.
  contradiction.
Qed.

(** ** Success and failure of the loop *)

(** X1: for props that pass validation and whose bucket resolves, the
    constructor returns without an error exactly when the fingerprints of
    the job names are pairwise distinct. *)
Theorem construction_succeeds_iff_fingerprints_distinct
    (fromBucketName : string -> Error + IBucket) (ctx : Context)
    (props : DailyCloudWatchLogArchiverProps) :
  1 <= List.length (schedules props) <= 60 ->
  resolves fromBucketName (targetBucket props) = true ->
  snd (construct fromBucketName ctx props) = inr tt
  <-> NoDup (map idPrefix (schedules props)).
Proof.
  intros Hvalid Hres.
  destruct (resolves_preamble _ ctx _ Hres) as [pre Hpre]. split.
  - intros H.
    destruct (construct fromBucketName ctx props) as [t r] eqn:C.
    cbn in H. subst r.
    exact (construct_success_inv _ _ _ Hvalid Hpre C).
  - intros Hnd. now rewrite (construct_success _ _ _ Hvalid Hpre Hnd).
Qed.

Lemma construction_succeeds_iff_fingerprints_distinct_witness :
  snd (construct sample_fromBucketName sample_ctx
                 {| schedules := [job_app; job_web]; targetBucket := None |})
  = inr tt.
Proof.
  apply (@construction_succeeds_iff_fingerprints_distinct sample_fromBucketName
           sample_ctx {| schedules := [job_app; job_web]; targetBucket := None |}).
  - cbn. lia.
  - reflexivity.
  - vm_compute. repeat constructor; cbn; intuition discriminate.
Defined.



(** ** The function, its role and the bucket *)

(** X3: in a construction past validation and bucket resolution, the
    function [LogArchiveFunction] and the statement [put-bucket-policy] of
    its role speak of one bucket, the one lines 47 to 94 resolved: the
    function's [BUCKET_NAME] is that bucket's name and the statement's only
    resource is that bucket's ARN, the tokens of [LogArchiveBucket] when the
    bucket is provisioned here and what the library gave for the name
    otherwise; the function runs under [LambdaExecutionRole]. *)
Theorem function_and_role_share_the_resolved_bucket
    (fromBucketName : string -> Error + IBucket) (ctx : Context)
    (props : DailyCloudWatchLogArchiverProps) :
  1 <= List.length (schedules props) <= 60 ->
  resolves fromBucketName (targetBucket props) = true ->
  let t := fst (construct fromBucketName ctx props) in
  exists theName theArn,
    (if unset (targetBucket props)
     then theName = token "LogArchiveBucket" "Ref" /\
          theArn = token "LogArchiveBucket" "Arn" /\
          exists n policy,
            lookup "LogArchiveBucket" t = Some (SecureLogBucket n policy)
     else exists b existing,
            targetBucket props = Some b /\ fromBucketName b = inr existing /\
            theName = bucketName existing /\ theArn = bucketArn existing /\
            lookup "existingBucket" t = Some (ImportedBucket existing)) /\
    lookup "LogArchiveFunction" t
    = Some (LogArchiverFunction
              {| functionName := "daily-cw-log-archiver-" ++ randomNameKey ctx ++ "-func";
                 functionDescription :=
                   "A function to archive logs s3 bucket from CloudWatch Logs.";
                 environment := [("BUCKET_NAME", theName)];
                 role := "LambdaExecutionRole" |}) /\
    exists r,
      lookup "LambdaExecutionRole" t = Some (Role r) /\
      assumedBy r = ServicePrincipal "lambda.amazonaws.com" /\
      inlinePolicy "put-bucket-policy" r
      = Some [ {| effect := ALLOW; principals := [];
                  actions := ["s3:GetBucketAcl"; "s3:PutObject"];
                  resources := [theArn];
                  conditions := [] |} ].
Proof.
  intros Hvalid Hres t. subst t.
  destruct (resolves_preamble _ ctx _ Hres) as [pre Hpre].
  rewrite (construct_tree _ _ _ Hvalid Hpre).
  destruct (preamble_shape _ _ _ Hpre) as [child [bucket [-> H]]].
  destruct H as [[-> [-> U]] | [b [existing [Hb [U [L [-> ->]]]]]]]; rewrite U.
  - exists (token "LogArchiveBucket" "Ref"), (token "LogArchiveBucket" "Arn").
    split; [| split].
    + split; [reflexivity |]. split; [reflexivity |].
      do 2 eexists. rewrite lookup_app_l by reflexivity. reflexivity.
    + rewrite lookup_app_l by reflexivity. reflexivity.
    + eexists. rewrite lookup_app_l by reflexivity.
      split; [reflexivity |]. split; reflexivity.
  - exists (bucketName existing), (bucketArn existing).
    split; [| split].
    + exists b, existing. repeat (split; [assumption || reflexivity |]).
      rewrite lookup_app_l by reflexivity. reflexivity.
    + rewrite lookup_app_l by reflexivity. reflexivity.
    + eexists. rewrite lookup_app_l by reflexivity.
      split; [reflexivity |]. split; reflexivity.
Qed.

Lemma function_and_role_share_the_resolved_bucket_witness :
  exists theName theArn,
    lookup "LogArchiveFunction"
           (fst (construct sample_fromBucketName sample_ctx
                           {| schedules := [job_app]; targetBucket := Some "my-bucket" |}))
    = Some (LogArchiverFunction
              {| functionName := "daily-cw-log-archiver-" ++ randomNameKey sample_ctx ++ "-func";
                 functionDescription :=
                   "A function to archive logs s3 bucket from CloudWatch Logs.";
                 environment := [("BUCKET_NAME", theName)];
                 role := "LambdaExecutionRole" |}) /\
    theArn <> "".
Proof.
  destruct (@function_and_role_share_the_resolved_bucket sample_fromBucketName
              sample_ctx {| schedules := [job_app]; targetBucket := Some "my-bucket" |})
    as [theName [theArn [B [F _]]]].
  - cbn. lia.
  - reflexivity.
  - exists theName, theArn. split; [exact F |].
    cbn in B. destruct B as [b [existing [Hb [L [_ [-> _]]]]]].
    injection Hb as <-. vm_compute in L. injection L as <-. discriminate.
Defined.

(** ** What every schedule refers to *)

Lemma construct_schedule_position (fromBucketName : string -> Error + IBucket)
    (ctx : Context) (props : DailyCloudWatchLogArchiverProps) (s : CfnScheduleProps) :
  In s (schedulesOf (fst (construct fromBucketName ctx props))) ->
  exists n job,
    nth_error (schedules props) n = Some job /\
    n < 60 /\
    s = schedule_props (randomNameKey ctx) (decimal n) job.
Proof.
  intros H.
  assert (V : 1 <= List.length (schedules props) <= 60).
  { apply schedulesOf_In in H. destruct H as [i H].
    exact (construct_valid_of_child _ _ _ _ H). }
  destruct (construct_cases fromBucketName ctx props) as [E | [pre [Hpre E]]];
    rewrite E in *; [contradiction |].
  rewrite schedulesOf_app, (preamble_schedulesOf _ _ _ Hpre) in H. cbn [app] in H.
  apply schedulesOf_In in H. destruct H as [i Hin].
  apply accepted_incl, In_nth_error in Hin. destruct Hin as [n Hn].
  rewrite declarations_nth in Hn.
  destruct (nth_error (schedules props) n) as [job |] eqn:Hjob; [| discriminate].
  cbn in Hn. injection Hn as _ <-. exists n, job.
  split; [exact Hjob |]. split; [| reflexivity].
  assert (Hs : nth_error (schedules props) n <> None) by now rewrite Hjob.
  apply nth_error_Some in Hs. lia.
Qed.

(** X4: a schedule of the tree never points outside the tree.  Its group
    name is the name of the group declared as [ScheduleGroup], its target is
    the ARN of the function declared as [LogArchiveFunction], and the role it
    invokes with is the one declared as [SchedulerExecutionRole], which the
    scheduler service may assume; it is enabled, with no flexible window. *)
Theorem schedules_refer_to_declared_children
    (fromBucketName : string -> Error + IBucket) (ctx : Context)
    (props : DailyCloudWatchLogArchiverProps) (s : CfnScheduleProps) :
  let t := fst (construct fromBucketName ctx props) in
  In s (schedulesOf t) ->
  state s = "ENABLED" /\
  flexibleTimeWindowMode s = "OFF" /\
  lookup "ScheduleGroup" t = Some (CfnScheduleGroup (groupName s)) /\
  arn (scheduleTarget s) = token "LogArchiveFunction" "Arn" /\
  (exists f, lookup "LogArchiveFunction" t = Some (LogArchiverFunction f)) /\
  roleArn (scheduleTarget s) = token "SchedulerExecutionRole" "Arn" /\
  (exists r, lookup "SchedulerExecutionRole" t = Some (Role r) /\
             assumedBy r = ServicePrincipal "scheduler.amazonaws.com").
Proof.
  intros t H. subst t.
  destruct (construct_schedule_position _ _ _ _ H) as [n [job [_ [_ ->]]]].
  destruct (construct_cases fromBucketName ctx props) as [E | [pre [Hpre E]]];
    rewrite E in *; [contradiction |].
  destruct (preamble_shape _ _ _ Hpre) as [child [bucket [-> Hc]]].
  assert (Hid : fst child = "LogArchiveBucket" \/ fst child = "existingBucket").
  { destruct Hc as [[-> _] | [b [ib [_ [_ [_ [-> _]]]]]]]; [left | right]; reflexivity. }
  destruct child as [ci cc]. cbn [fst] in Hid.
  split; [reflexivity |]. split; [reflexivity |].
  split; [rewrite lookup_app_l; destruct Hid as [-> | ->]; reflexivity |].
  split; [reflexivity |].
  split; [eexists; rewrite lookup_app_l; destruct Hid as [-> | ->]; reflexivity |].
  split; [reflexivity |].
  eexists. split; [rewrite lookup_app_l; destruct Hid as [-> | ->]; reflexivity |].
  reflexivity.
Qed.

Lemma schedules_refer_to_declared_children_witness :
  lookup "ScheduleGroup"
         (fst (construct sample_fromBucketName sample_ctx
                         {| schedules := [job_app; job_web]; targetBucket := None |}))
  = Some (CfnScheduleGroup
            (groupName (schedule_props (randomNameKey sample_ctx) "1" job_web))).
Proof.
  apply (@schedules_refer_to_declared_children sample_fromBucketName sample_ctx
           {| schedules := [job_app; job_web]; targetBucket := None |}
           (schedule_props (randomNameKey sample_ctx) "1" job_web)).
  vm_compute. right. left. reflexivity.
Defined.

(** X5: whatever the input and however the run ends, a schedule of the tree
    sits at minute m of hour 13, UTC, where m is the position of its job in
    the list and is below 60; so no two schedules of one tree share a
    minute. *)
Theorem schedule_minute_is_job_position
    (fromBucketName : string -> Error + IBucket) (ctx : Context)
    (props : DailyCloudWatchLogArchiverProps) (s : CfnScheduleProps) :
  let t := fst (construct fromBucketName ctx props) in
  In s (schedulesOf t) ->
  (exists m job,
      nth_error (schedules props) m = Some job /\
      m < 60 /\
      scheduleName s = name job /\
      scheduleExpressionTimezone s = "UTC" /\
      cron_minute_hour (scheduleExpression s) = Some (m, 13)) /\
  (forall s',
      In s' (schedulesOf t) ->
      cron_minute (scheduleExpression s') = cron_minute (scheduleExpression s) ->
      s' = s).
Proof.
  intros t H. subst t.
  destruct (construct_schedule_position _ _ _ _ H) as [n [job [Hjob [Hn ->]]]].
  split.
  - exists n, job. repeat (split; [assumption || reflexivity |]).
    cbn [schedule_props scheduleExpression]. now apply cron_minute_hour_decimal.
  - intros s' H' E.
    destruct (construct_schedule_position _ _ _ _ H') as [n' [job' [Hjob' [Hn' ->]]]].
    unfold cron_minute in E. cbn [schedule_props scheduleExpression] in E.
    rewrite !cron_minute_hour_decimal in E by assumption.
    cbn in E. injection E as ->. rewrite Hjob in Hjob'. now injection Hjob' as ->.
Qed.

Lemma schedule_minute_is_job_position_witness :
  exists m job,
    nth_error [job_app; job_web] m = Some job /\
    cron_minute_hour
      (scheduleExpression (schedule_props (randomNameKey sample_ctx) "1" job_web))
    = Some (m, 13).
Proof.
  destruct (@schedule_minute_is_job_position sample_fromBucketName sample_ctx
              {| schedules := [job_app; job_web]; targetBucket := None |}
              (schedule_props (randomNameKey sample_ctx) "1" job_web))
    as [[m [job [Hj [_ [_ [_ Hc]]]]]] _].
  - vm_compute. right. left. reflexivity.
  - exists m, job. split; [exact Hj | exact Hc].
Defined.

(** ** Generated names *)

Lemma string_length_app (a b : string) :
  String.length (a ++ b) = String.length a + String.length b.
Proof. induction a as [| c a IH]; cbn; [reflexivity | now rewrite IH]. Qed.

Lemma string_app_nil_r (a : string) : a ++ "" = a.
Proof. induction a as [| c a IH]; cbn; [reflexivity | now rewrite IH]. Qed.

Lemma forall_chars_app (p : ascii -> bool) (a b : string) :
  forall_chars p (a ++ b) = forall_chars p a && forall_chars p b.
Proof.
  induction a as [| c a IH]; cbn; [reflexivity |].
  now rewrite IH, andb_assoc.
Qed.

Lemma hex_digit_is_name_char (c : ascii) :
  is_hex_digit c = true -> is_name_char c = true /\ is_id_char c = true.
Proof.
  destruct c as [[] [] [] [] [] [] [] []]; vm_compute; intros H;
    (discriminate H || (split; reflexivity)).
Qed.

Lemma all_hex_name_chars (s : string) :
  all_hex s = true ->
  forall_chars is_name_char s = true /\ forall_chars is_id_char s = true.
Proof.
  induction s as [| c s IH]; cbn [all_hex forall_chars]; [now split |].
  intros H. apply andb_prop in H. destruct H as [Hc Hs].
  destruct (hex_digit_is_name_char c Hc) as [-> ->].
  destruct (IH Hs) as [-> ->]. now split.
Qed.

Lemma hex8_name (s : string) :
  is_hex8 s = true ->
  String.length s = 8 /\ forall_chars is_name_char s = true /\
  forall_chars is_id_char s = true.
Proof.
  unfold is_hex8. intros H. apply andb_prop in H. destruct H as [L A].
  apply Nat.eqb_eq in L. split; [exact L |]. now apply all_hex_name_chars.
Qed.

(** X6: the names the constructor makes up have a fixed length and only
    lowercase letters, digits and hyphens, whatever the input: the role name
    has 47 characters, the function name 35, the schedule group name 35, and
    the name of a bucket provisioned here 20. *)
Theorem generated_names_have_fixed_shape
    (fromBucketName : string -> Error + IBucket) (ctx : Context)
    (props : DailyCloudWatchLogArchiverProps) :
  1 <= List.length (schedules props) <= 60 ->
  resolves fromBucketName (targetBucket props) = true ->
  let t := fst (construct fromBucketName ctx props) in
  let shaped := fun (n : nat) (s : string) =>
    String.length s = n /\ forall_chars is_name_char s = true in
  (exists r n, lookup "LambdaExecutionRole" t = Some (Role r) /\
               roleName r = Some n /\ shaped 47 n) /\
  (exists f, lookup "LogArchiveFunction" t = Some (LogArchiverFunction f) /\
             shaped 35 (functionName f)) /\
  (exists g, lookup "ScheduleGroup" t = Some (CfnScheduleGroup g) /\ shaped 35 g) /\
  (unset (targetBucket props) = true ->
   exists n policy, lookup "LogArchiveBucket" t = Some (SecureLogBucket n policy) /\
                    shaped 20 n).
Proof.
  intros Hvalid Hres t shaped. subst t.
  destruct (resolves_preamble _ ctx _ Hres) as [pre Hpre].
  rewrite (construct_tree _ _ _ Hvalid Hpre).
  destruct (hex8_name _ (shake256_hex4_is_hex8 (identity ctx))) as [L [C _]].
  fold (randomNameKey ctx) in L, C.
  assert (S : forall a b n,
             forall_chars is_name_char a = true ->
             forall_chars is_name_char b = true ->
             String.length a + 8 + String.length b = n ->
             shaped n (a ++ randomNameKey ctx ++ b)).
  { intros a b n Ha Hb Hn. split.
    - rewrite !string_length_app, L. lia.
    - now rewrite !forall_chars_app, Ha, C, Hb. }
  destruct (preamble_shape _ _ _ Hpre) as [child [bucket [-> Hc]]].
  assert (Hid : fst child = "LogArchiveBucket" \/ fst child = "existingBucket").
  { destruct Hc as [[-> _] | [b [ib [_ [_ [_ [-> _]]]]]]]; [left | right]; reflexivity. }
  split; [| split; [| split]].
  - do 2 eexists. split.
    + destruct child as [ci cc]. cbn [fst] in Hid.
      rewrite lookup_app_l; destruct Hid as [-> | ->]; reflexivity.
    + split; [reflexivity |]. now apply S.
  - eexists. split.
    + destruct child as [ci cc]. cbn [fst] in Hid.
      rewrite lookup_app_l; destruct Hid as [-> | ->]; reflexivity.
    + cbn [functionName lambdaFunction]. now apply S.
  - eexists. split.
    + destruct child as [ci cc]. cbn [fst] in Hid.
      rewrite lookup_app_l; destruct Hid as [-> | ->]; reflexivity.
    + unfold scheduleGroup. now apply S.
  - intros U. destruct Hc as [[-> _] | [b [ib [_ [U' _]]]]]; [| congruence].
    do 2 eexists. split; [rewrite lookup_app_l by reflexivity; reflexivity |].
    rewrite <- (string_app_nil_r (randomNameKey ctx)). now apply S.
Qed.

Lemma generated_names_have_fixed_shape_witness :
  exists g,
    lookup "ScheduleGroup"
           (fst (construct sample_fromBucketName sample_ctx
                           {| schedules := [job_app]; targetBucket := None |}))
    = Some (CfnScheduleGroup g) /\
    String.length g = 35.
Proof.
  destruct (@generated_names_have_fixed_shape sample_fromBucketName sample_ctx
              {| schedules := [job_app]; targetBucket := None |})
    as [_ [_ [[g [Hg [Hl _]]] _]]].
  - cbn. lia.
  - reflexivity.
  - exists g. split; [exact Hg | exact Hl].
Defined.

(** X7: the id of a schedule is [Schedule] followed by the 8 hex digits of
    the fingerprint: 16 letters and digits, and never one of the ids of the
    bucket, the roles, the function and the group, whatever the job's name. *)
Theorem schedule_id_is_never_a_fixed_id (schedule : ScheduleProperty) :
  String.length (scheduleId schedule) = 16 /\
  forall_chars is_id_char (scheduleId schedule) = true /\
  ~ In (scheduleId schedule) fixedIds.
Proof.
  destruct (hex8_name _ (shake256_hex4_is_hex8 (name schedule))) as [L [_ C]].
  fold (idPrefix schedule) in L, C.
  split; [| split].
  - unfold scheduleId. now rewrite string_length_app, L.
  - unfold scheduleId. now rewrite forall_chars_app, C.
  - assert (G : forall rest, String.length rest <> 8 ->
                  scheduleId schedule <> "Schedule" ++ rest).
    { intros rest Hrest E. unfold scheduleId in E. apply append_inj in E.
      apply Hrest. now rewrite <- E. }
    unfold fixedIds. cbn [In].
    intros [E | [E | [E | [E | [E | [E | []]]]]]]; symmetry in E.
    + now apply (proj1 (scheduleId_not_bucket schedule)).
    + now apply (proj2 (scheduleId_not_bucket schedule)).
    + unfold scheduleId in E. cbn in E. discriminate E.
    + unfold scheduleId in E. cbn in E. discriminate E.
    + apply (G "rExecutionRole"); [cbn; lia | exact E].
    + apply (G "Group"); [cbn; lia | exact E].
Qed.

(** ** The library is asked only for a named bucket *)

(** X8: with [targetBucket] undefined or empty the constructor does not
    consult [Bucket.fromBucketName]: the run is the same whatever the library
    would answer, and the empty string gives the very run of [undefined]. *)
Theorem unset_bucket_never_asks_the_library
    (lib1 lib2 : string -> Error + IBucket) (ctx : Context)
    (props : DailyCloudWatchLogArchiverProps) :
  unset (targetBucket props) = true ->
  construct lib1 ctx props = construct lib2 ctx props /\
  construct lib1 ctx props
  = construct lib1 ctx {| schedules := schedules props; targetBucket := None |}.
Proof.
  intros U. unfold construct, DailyCloudWatchLogArchiver, validate, localBucket.
  cbn [schedules targetBucket].
  destruct (targetBucket props) as [b |]; [| now split].
  cbn [unset] in U. rewrite U. now split.
Qed.

Lemma unset_bucket_never_asks_the_library_witness :
  construct sample_fromBucketName sample_ctx
            {| schedules := [job_app]; targetBucket := Some "" |}
  = construct (fun _ => inl (JsError "unreachable")) sample_ctx
              {| schedules := [job_app]; targetBucket := Some "" |}.
Proof.
  apply (@unset_bucket_never_asks_the_library sample_fromBucketName
           (fun _ => inl (JsError "unreachable")) sample_ctx
           {| schedules := [job_app]; targetBucket := Some "" |}).
  reflexivity.
Defined.

(** ** Growing the list *)

(** X9: a job appended to an accepted list, its fingerprint new and the list
    still within 60, leaves every child of the tree as it was and adds one
    schedule after them, for the new job, at the minute that is the old
    length of the list. *)
Theorem appended_job_adds_one_schedule
    (fromBucketName : string -> Error + IBucket) (ctx : Context)
    (targetBucket : option string) (jobs : list ScheduleProperty)
    (j : ScheduleProperty) :
  1 <= List.length jobs < 60 ->
  NoDup (map idPrefix (jobs ++ [j])%list) ->
  resolves fromBucketName targetBucket = true ->
  exists t s,
    construct fromBucketName ctx {| schedules := jobs; targetBucket := targetBucket |}
    = (t, inr tt) /\
    construct fromBucketName ctx
              {| schedules := (jobs ++ [j])%list; targetBucket := targetBucket |}
    = ((t ++ [(scheduleId j, CfnSchedule s)])%list, inr tt) /\
    scheduleName s = name j /\
    cron_minute_hour (scheduleExpression s) = Some (List.length jobs, 13).
Proof.
  intros Hlen Hnd Hres.
  destruct (resolves_preamble _ ctx _ Hres) as [pre Hpre].
  exists (pre ++ declarations (randomNameKey ctx) jobs)%list,
         (schedule_props (randomNameKey ctx) (decimal (List.length jobs)) j).
  split; [| split; [| split]].
  - apply construct_success; cbn [schedules]; [lia | exact Hpre |].
    rewrite map_app in Hnd. now apply NoDup_app_remove_r in Hnd.
  - rewrite (@construct_success fromBucketName ctx
               {| schedules := (jobs ++ [j])%list; targetBucket := targetBucket |} pre).
    + cbn [schedules]. rewrite declarations_app, app_assoc. reflexivity.
    + cbn [schedules]. rewrite length_app. cbn. lia.
    + exact Hpre.
    + exact Hnd.
  - reflexivity.
  - cbn [schedule_props scheduleExpression]. apply cron_minute_hour_decimal. lia.
Qed.

Lemma appended_job_adds_one_schedule_witness :
  exists t s,
    construct sample_fromBucketName sample_ctx
              {| schedules := [job_app]; targetBucket := None |}
    = (t, inr tt) /\
    construct sample_fromBucketName sample_ctx
              {| schedules := [job_app; job_web]; targetBucket := None |}
    = ((t ++ [(scheduleId job_web, CfnSchedule s)])%list, inr tt) /\
    cron_minute_hour (scheduleExpression s) = Some (1, 13).
Proof.
  destruct (@appended_job_adds_one_schedule sample_fromBucketName sample_ctx
              None [job_app] job_web)
    as [t [s [H1 [H2 [_ H3]]]]].
  - cbn. lia.
  - vm_compute. repeat constructor; cbn; intuition discriminate.
  - reflexivity.
  - exists t, s. split; [exact H1 |]. split; [exact H2 | exact H3].
Defined.

(** ** The children of a finished construct *)

(** X10: a construction that succeeds leaves 5 + n children for n jobs: the
    bucket, the Lambda role, the function, the scheduler role and the group,
    then one schedule per job in the order of the list; their ids are
    pairwise distinct. *)
Theorem children_of_a_successful_construction
    (fromBucketName : string -> Error + IBucket) (ctx : Context)
    (props : DailyCloudWatchLogArchiverProps) (t : Children) :
  construct fromBucketName ctx props = (t, inr tt) ->
  map fst t
  = ((if unset (targetBucket props) then "LogArchiveBucket" else "existingBucket")
       :: ["LambdaExecutionRole"; "LogArchiveFunction"; "SchedulerExecutionRole";
           "ScheduleGroup"]
       ++ map scheduleId (schedules props))%list /\
  List.length t = 5 + List.length (schedules props) /\
  NoDup (map fst t).
Proof.
  intros C.
  assert (Hvalid : 1 <= List.length (schedules props) <= 60).
  { destruct (Nat.eq_dec (List.length (schedules props)) 0) as [E | E].
    { unfold construct in C.
      rewrite (construct_invalid fromBucketName ctx props (validate_empty props E)) in C.
      discriminate C. }
    destruct (le_lt_dec (List.length (schedules props)) 60) as [L | L]; [lia |].
    unfold construct in C.
    rewrite (construct_invalid fromBucketName ctx props (validate_too_many props L)) in C.
    discriminate C. }
  destruct (preamble fromBucketName ctx (targetBucket props)) as [pre |] eqn:Hpre.
  2: { unfold preamble in Hpre.
       destruct (targetBucket props) as [b |] eqn:Hb; [| discriminate].
       destruct (String.length b =? 0)%nat eqn:Hl; [discriminate |].
       destruct (fromBucketName b) as [e | ib] eqn:L; [| discriminate].
       rewrite (construct_unresolved fromBucketName ctx props Hvalid Hb Hl L) in C.
       discriminate C. }
  assert (Hnd := construct_success_inv _ _ _ Hvalid Hpre C).
  rewrite (construct_success _ _ _ Hvalid Hpre Hnd) in C. injection C as <-.
  assert (Ids : map fst pre
                = (if unset (targetBucket props)
                   then "LogArchiveBucket" else "existingBucket")
                    :: ["LambdaExecutionRole"; "LogArchiveFunction";
                        "SchedulerExecutionRole"; "ScheduleGroup"]).
  { destruct (preamble_shape _ _ _ Hpre) as [child [bucket [-> H]]].
    destruct H as [[-> [_ ->]] | [b [ib [_ [-> [_ [-> _]]]]]]]; reflexivity. }
  split; [| split].
  - rewrite map_app, declarations_ids, Ids. reflexivity.
  - rewrite <- (length_map fst), map_app, declarations_ids, Ids, length_app, length_map.
    reflexivity.
  - rewrite map_app, declarations_ids. apply NoDup_app.
    + rewrite Ids. destruct (unset (targetBucket props));
        repeat constructor; cbn; intuition discriminate.
    + now apply scheduleIds_NoDup.
    + intros i Hi Hs. apply in_map_iff in Hs. destruct Hs as [s [<- _]].
      apply hasChild_In in Hi. rewrite (preamble_fresh _ _ _ Hpre s) in Hi.
      discriminate Hi.
Qed.

Lemma children_of_a_successful_construction_witness :
  exists t,
    construct sample_fromBucketName sample_ctx
              {| schedules := [job_app; job_web]; targetBucket := Some "my-bucket" |}
    = (t, inr tt) /\
    List.length t = 7.
Proof.
  eexists. split; [vm_compute; reflexivity |].
  refine (proj1 (proj2 (@children_of_a_successful_construction sample_fromBucketName
            sample_ctx
            {| schedules := [job_app; job_web]; targetBucket := Some "my-bucket" |}
            _ _))).
  vm_compute. reflexivity.
Defined.

(** ** Payloads *)

(** X11: the payload tells the target: two schedules with the same input
    come from jobs with the same [logGroupName] and [destinationPrefix],
    quotes, backslashes and control characters in them included. *)
Theorem equal_payloads_have_equal_targets
    (key index index' : string) (a b : ScheduleProperty) :
  input (scheduleTarget (schedule_props key index a))
  = input (scheduleTarget (schedule_props key index' b)) ->
  logGroupName (target a) = logGroupName (target b) /\
  destinationPrefix (target a) = destinationPrefix (target b).
Proof.
  cbn [schedule_props scheduleTarget input]. intros E.
  apply (f_equal JSON_parse) in E. rewrite !JSON_parse_stringify in E.
  injection E as E1 E2. now split.
Qed.

Lemma equal_payloads_have_equal_targets_witness :
  logGroupName (target job_app)
  = logGroupName (target (job "renamed" "/app/prod" "app/")).
Proof.
  apply (@equal_payloads_have_equal_targets "k" "0" "7" job_app
           (job "renamed" "/app/prod" "app/")).
  reflexivity.
Defined.

(** ** What holds of every run *)

Lemma accepted_NoDup (ds : Children) :
  forall seen,
    NoDup seen -> NoDup (seen ++ map fst (accepted seen ds))%list.
Proof.
  induction ds as [| d rest IH]; intros seen Hs; cbn [accepted].
  - cbn. now rewrite app_nil_r.
  - destruct (existsb (String.eqb (fst d)) seen) eqn:E.
    + cbn. now rewrite app_nil_r.
    + cbn [map]. change (fst d :: map fst (accepted (seen ++ [fst d]) rest))%list
        with ([fst d] ++ map fst (accepted (seen ++ [fst d]) rest))%list.
      rewrite app_assoc. apply IH.
      apply NoDup_app; [exact Hs | repeat constructor; intros [] |].
      intros i Hi [<- | []].
      assert (T : existsb (String.eqb (fst d)) seen = true).
      { apply existsb_exists. exists (fst d). split; [exact Hi | apply String.eqb_refl]. }
      rewrite T in E. discriminate E.
Qed.

Lemma accepted_length (ds : Children) :
  forall seen, List.length (accepted seen ds) <= List.length ds.
Proof.
  induction ds as [| d rest IH]; intros seen; cbn [accepted]; [apply le_n |].
  destruct (existsb _ seen); cbn; [lia |]. specialize (IH (seen ++ [fst d])%list). lia.
Qed.

(** X12: however the run ends and whatever the input, the children of the
    construct have pairwise distinct ids, there are at most 65 of them, and
    at most as many schedules as jobs. *)
Theorem children_ids_are_distinct_and_bounded
    (fromBucketName : string -> Error + IBucket) (ctx : Context)
    (props : DailyCloudWatchLogArchiverProps) :
  let t := fst (construct fromBucketName ctx props) in
  NoDup (map fst t) /\
  List.length t <= 65 /\
  List.length (schedulesOf t) <= List.length (schedules props).
Proof.
  intros t. subst t.
  destruct (construct_cases fromBucketName ctx props) as [E | [pre [Hpre E]]].
  { rewrite E. cbn. repeat split; [constructor | lia | lia]. }
  assert (V : 1 <= List.length (schedules props) <= 60).
  { destruct (preamble_shape _ _ _ Hpre) as [child [bucket [-> _]]].
    apply (@construct_valid_of_child fromBucketName ctx props child).
    rewrite E. now left. }
  rewrite E.
  assert (Lp : List.length pre = 5).
  { destruct (preamble_shape _ _ _ Hpre) as [child [bucket [-> _]]]. reflexivity. }
  assert (La := accepted_length
                  (declarations (randomNameKey ctx) (schedules props)) (map fst pre)).
  assert (Ld : List.length (declarations (randomNameKey ctx) (schedules props))
               = List.length (schedules props)).
  { unfold declarations. now rewrite length_map, Object_entries_length. }
  split; [| split].
  - rewrite map_app. apply accepted_NoDup.
    destruct (preamble_shape _ _ _ Hpre) as [child [bucket [-> H]]].
    destruct H as [[-> _] | [b [ib [_ [_ [_ [-> _]]]]]]];
      repeat constructor; cbn; intuition discriminate.
  - rewrite length_app. lia.
  - rewrite schedulesOf_app, (preamble_schedulesOf _ _ _ Hpre). cbn [app].
    assert (Ls : forall l : Children, List.length (schedulesOf l) <= List.length l).
    { induction l as [| [i c] l IH]; [apply le_n |].
      change (schedulesOf ((i, c) :: l))
        with ((match c with CfnSchedule p => [p] | _ => [] end) ++ schedulesOf l)%list.
      rewrite length_app. destruct c; cbn; lia. }
    specialize (Ls (accepted (map fst pre)
                      (declarations (randomNameKey ctx) (schedules props)))).
    lia.
Qed.
